(** * Classification_NP: the binary-classification adapter of NeuralProphet

    A shallow embedding of [neuralprophet/classification.py]: the class
    [Classification_NP] with its constructor, [fit] and [predict].

    - Python values are a small dynamic-value type [pyval]; dictionaries with
      string keys are [gmap string _]; exceptions are a sum-like [result].
    - The parent class [NeuralProphet], [configure], [df_utils] are imported
      by the source file; they enter as the methods of the class
      [Forecaster] below.
    - pandas frames are ordered lists of named columns; float64 values are
      [spec_float] at binary64 precision. *)

From Stdlib Require Import Floats.SpecFloat Strings.Ascii.
From Stdlib Require Structures.OrderedTypeEx.
From stdpp Require Import base option list sorting gmap strings pretty.

Set Warnings "-register-all".

Local Open Scope string_scope.
Local Open Scope Z_scope.
Local Open Scope list_scope.

(** ** Strings *)

(** [str.lower] on the ASCII letters.  Strings are byte strings (UTF-8);
    bytes above 127 are left alone.  The source only tests the lowered
    string for membership among pure-ASCII keys, and no non-ASCII character
    lowers to one of the letters of those keys, so the test agrees with
    Python's. *)
Definition lower_ascii (c : Ascii.ascii) : Ascii.ascii :=
  let n := Ascii.N_of_ascii c in
  if ((65 <=? n)%N && (n <=? 90)%N)%bool then Ascii.ascii_of_N (n + 32) else c.

Fixpoint lower (s : string) : string :=
  match s with
  | EmptyString => EmptyString
  | String c s' => String (lower_ascii c) (lower s')
  end.

(** [prefix + "{}".format(i)] for a non-negative int [i]. *)
Definition fmt (prefix : string) (i : nat) : string := prefix +:+ pretty i.

(** ** float64 *)

Definition float64 : Type := spec_float.

Definition prec64 : Z := 53.
Definition emax64 : Z := 1024.

Definition nan : float64 := S754_nan.

(** float64 subtraction, rounding to nearest even. *)
Definition f64_sub (x y : float64) : float64 := SFsub prec64 emax64 x y.

(** [numpy.ndarray.round()] with zero decimals is [rint]: the nearest
    integer, ties going to the even one; zeros, infinities and NaN are
    returned as they are, and the sign of the argument is kept. *)
Definition rint (x : float64) : float64 :=
  match x with
  | S754_finite s m e =>
      if 0 <=? e then x
      else
        let mrs := fst (shr (Build_shr_record (Zpos m) false false) e (- e)) in
        match round_nearest_even (shr_m mrs) (loc_of_shr_record mrs) with
        | Zpos p => binary_round prec64 emax64 s p 0
        | _ => S754_zero s
        end
  | _ => x
  end.

(** Small integers as float64, for examples. *)
Definition f64_of_Z (z : Z) : float64 := binary_normalize prec64 emax64 z 0 false.

(** [m / 2^k] as float64 (exact for the small values used below). *)
Definition f64_dyadic (m : Z) (k : Z) : float64 :=
  binary_normalize prec64 emax64 m (- k) false.

(** ** Data frames *)

Inductive cell :=
| Num (x : float64)
| Txt (s : string).

Definition Series : Type := list cell.

(** A frame is its columns in order; the index is positional. *)
Definition DataFrame : Type := list (string * Series).

(** ** Python values and exceptions *)

(** The values of the model.  [PyObj cls lower] is an instance of a class
    named [cls] that is none of the others: it is hashed and compared by
    identity, and [lower] is what its method [lower()] returns, when its class
    has one.  Instances of classes that derive from [str] or [list], and
    methods that raise or that return another value at another call, are
    outside the model. *)
Inductive pyval :=
| PyNone
| PyBool (b : bool)
| PyInt (z : Z)
| PyStr (s : string)
| PyBytes (b : string)
| PyList (l : list pyval)
| PyDict (d : list (string * pyval))
| PyFrame (df : DataFrame)
| PyObj (cls : string) (lower : option pyval).

Definition type_name (v : pyval) : string :=
  match v with
  | PyNone => "NoneType"
  | PyBool _ => "bool"
  | PyInt _ => "int"
  | PyStr _ => "str"
  | PyBytes _ => "bytes"
  | PyList _ => "list"
  | PyDict _ => "dict"
  | PyFrame _ => "DataFrame"
  | PyObj cls _ => cls
  end.

Inductive exception :=
| ValueError (msg : string)
| NotImplementedError (msg : string)
| KeyError (key : string)
| KeyErrorOf (key : pyval)  (* [KeyError(key)] for a key that is not a [str] *)
| AttributeError (msg : string)
| TypeError (msg : string)
| InvalidIndexError (msg : string)
| OtherError (cls msg : string).  (* whatever else a collaborator raises *)

Inductive result (A : Type) :=
| Ok (a : A)
| Raise (e : exception).
Arguments Ok {A} a.
Arguments Raise {A} e.

#[global] Instance result_ret : MRet result := λ A a, Ok a.
#[global] Instance result_bind : MBind result := λ A B f m,
  match m with
  | Ok a => f a
  | Raise e => Raise e
  end.

(** [d[key]] on a dict. *)
Definition dict_getitem {V} (d : gmap string V) (key : string) : result V :=
  match d !! key with
  | Some v => Ok v
  | None => Raise (KeyError key)
  end.

(** ** The [metrics] and [configure] modules, as far as the class uses them *)

Inductive metric :=
| LossMetric (loss_fn : pyval)
| Accuracy
| Balanced_Accuracy
| F1Score.

Inductive value_metric :=
| ValueMetric (name : string).

Record MetricsCollection := {
  batch_metrics : list metric;
  value_metrics : list value_metric
}.

(** [configure.Train], the two attributes the class reads. *)
Module configure.
Record Train := {
  loss_func : pyval;
  loss_func_name : string
}.
End configure.


(** ** Frame operations (pandas) *)

Definition columns (df : DataFrame) : list string := df.*1.

Definition nrows (df : DataFrame) : nat :=
  match df with
  | [] => 0%nat
  | (_, s) :: _ => length s
  end.

(** First column labelled [c], if any. *)
Fixpoint col (df : DataFrame) (c : string) : option Series :=
  match df with
  | [] => None
  | (c', s) :: df' => if String.eqb c' c then Some s else col df' c
  end.

Fixpoint count_label (df : DataFrame) (c : string) : nat :=
  match df with
  | [] => 0%nat
  | (c', _) :: df' => ((if String.eqb c' c then 1 else 0) + count_label df' c)%nat
  end.

(** [df[c]] as a one-dimensional column.  A missing label is a [KeyError].
    With a repeated label pandas hands back a two-dimensional selection,
    which the column assignments and [groupby] of [predict] reject; the
    model raises at the selection. *)
Definition getitem (df : DataFrame) (c : string) : result Series :=
  match col df c with
  | None => Raise (KeyError c)
  | Some s =>
      if (count_label df c =? 1)%nat then Ok s
      else Raise (ValueError ("label " +:+ c +:+ " is not unique"))
  end.

(** [df[c] = s]: overwrite in place, or append a new last column. *)
Definition setitem (df : DataFrame) (c : string) (s : Series) : DataFrame :=
  match col df c with
  | Some _ => map (λ p, if String.eqb p.1 c then (p.1, s) else p) df
  | None => (df ++ [(c, s)])%list
  end.

(** [df[c] = v] for a scalar [v], broadcast over the rows. *)
Definition setitem_scalar (df : DataFrame) (c : string) (v : cell) : DataFrame :=
  match col df c with
  | Some _ => map (λ p, if String.eqb p.1 c then (p.1, map (λ _, v) p.2) else p) df
  | None => (df ++ [(c, replicate (nrows df) v)])%list
  end.

(** [df.rename(columns={old: new})]: labels other than [old] are kept, an
    absent [old] is ignored. *)
Definition rename (df : DataFrame) (old new : string) : DataFrame :=
  map (λ p, (if String.eqb p.1 old then new else p.1, p.2)) df.

(** Two frames on the union of their labels: rows of [a] then rows of [b];
    columns of [a] first, then the new ones of [b]; cells a frame does not
    have are NaN. *)
Definition concat_outer (a b : DataFrame) : DataFrame :=
  (map (λ p, (p.1, p.2 ++ default (replicate (nrows b) (Num nan)) (col b p.1))) a ++
   map (λ p, (p.1, replicate (nrows a) (Num nan) ++ p.2))
       (filter (λ p, p.1 ∉ columns a) b))%list.

(** [pd.concat((a, b), ignore_index=True)].  A frame without a column is
    left out of the concatenation.  Two frames with the same labels in the
    same order are joined column by column.  Any other two frames are both
    re-indexed on the union of their labels, which pandas refuses, with
    [InvalidIndexError], for a frame with a repeated label. *)
Definition concat (a b : DataFrame) : result DataFrame :=
  match a, b with
  | [], _ => Ok b
  | _, [] => Ok a
  | _, _ =>
      if bool_decide (columns a = columns b) then
        Ok (zip_with (λ p q, (p.1, (p.2 ++ q.2)%list)) a b)
      else if bool_decide (NoDup (columns a) ∧ NoDup (columns b)) then
        Ok (concat_outer a b)
      else
        Raise (InvalidIndexError
                 "Reindexing only valid with uniquely valued Index objects")
  end.

(** [np.array(s.values, dtype=np.float64)].  A string stops the step: the
    conversion raises on it, or, for a string that reads as a number, the
    subtraction of line 138 does; the two are not told apart here. *)
Definition to_float64 (s : Series) : result (list float64) :=
  mapM (λ c, match c with
             | Num x => Ok x
             | Txt t => Raise (ValueError ("could not convert string to float: " +:+ t))
             end) s.

Definition cell_sub (a b : cell) : result cell :=
  match a, b with
  | Num x, Num y => Ok (Num (f64_sub x y))
  | _, _ => Raise (TypeError "unsupported operand type(s) for -")
  end.

(** [a - b] on two columns of one frame (same index, so position-wise). *)
Definition series_sub (a b : Series) : result Series :=
  mapM (λ p, cell_sub p.1 p.2) (zip a b).

(** *** groupby

    [df.groupby(c)] groups the rows by their cell in column [c], the
    identifier, which is a number or a string.  A row whose identifier is
    missing (NaN) is in no group.  Two numbers name one group when they are
    equal as floats, as 0.0 and -0.0 are, and the key of a group is the
    identifier of its first row.  The groups come sorted by key: the numbers
    first, ascending, then the strings, compared as Python compares [str],
    code point by code point, which on UTF-8 is byte by byte. *)

Definition is_missing (c : cell) : bool :=
  match c with
  | Num S754_nan => true
  | _ => false
  end.

(** The order of the keys; a missing identifier is never a key. *)
Definition key_compare (a b : cell) : comparison :=
  match a, b with
  | Num x, Num y => default Eq (SFcompare x y)
  | Num _, Txt _ => Lt
  | Txt _, Num _ => Gt
  | Txt s, Txt t => String.compare s t
  end.

(** Whether the identifier [a] is of the group with key [b]. *)
Definition key_eqb (a b : cell) : bool :=
  match a, b with
  | Num x, Num y => SFeqb x y
  | Txt s, Txt t => String.eqb s t
  | _, _ => false
  end.

(** Insertion into a strictly ascending list of keys; of two identifiers
    of one group the one inserted last, which is the one of the earlier row,
    is kept. *)
Fixpoint insert_key (k : cell) (l : list cell) : list cell :=
  match l with
  | [] => [k]
  | h :: t =>
      match key_compare k h with
      | Lt => k :: l
      | Eq => k :: t
      | Gt => h :: insert_key k t
      end
  end.

(** The keys of the groups, ascending. *)
Definition group_keys (ids : Series) : list cell :=
  foldr (λ c keys, if is_missing c then keys else insert_key c keys) [] ids.

(** Rows of a column whose identifier is of the group with key [k], in
    their order. *)
Fixpoint select (k : cell) (ids : Series) (s : Series) : Series :=
  match ids, s with
  | i :: ids', x :: s' => if key_eqb i k then x :: select k ids' s' else select k ids' s'
  | _, _ => []
  end.

Definition take_group (k : cell) (ids : Series) (df : DataFrame) : DataFrame :=
  map (λ p, (p.1, select k ids p.2)) df.

(** [df.groupby(c)], iterated: the pairs (key, sub-frame) in ascending key
    order, each sub-frame holding its rows in their original order. *)
Definition groupby (df : DataFrame) (c : string) : result (list (cell * DataFrame)) :=
  ids ← getitem df c;
  mret ((λ k, (k, take_group k ids df)) <$> group_keys ids).

(** The same on a column of strings, where the keys are the distinct
    strings, ascending, and a group holds the rows of its string. *)
Fixpoint insert_id (k : string) (l : list string) : list string :=
  match l with
  | [] => [k]
  | h :: t =>
      match String.compare k h with
      | Lt => k :: l
      | Eq => l
      | Gt => h :: insert_id k t
      end
  end.

Definition group_ids (ids : list string) : list string :=
  foldr insert_id [] ids.

Fixpoint select_id (k : string) (ids : list string) (s : Series) : Series :=
  match ids, s with
  | i :: ids', x :: s' =>
      if String.eqb i k then x :: select_id k ids' s' else select_id k ids' s'
  | _, _ => []
  end.

(** *** The shape of a forecast frame

    What the wrapped forecaster's frame looks like once normalised: no
    column label is repeated, and there is one identifier column of strings,
    one numeric label column [y] and, for every horizon step, one numeric
    raw forecast column [yhat<m>], with no column yet under the raw-variant
    name. *)

Definition numeric (s : Series) : Prop := Forall (λ c, ∃ x, c = Num x) s.

Definition has_ids (df : DataFrame) : Prop :=
  count_label df "ID" = 1%nat ∧ ∃ ids, col df "ID" = Some (Txt <$> ids).

Definition has_label (df : DataFrame) : Prop :=
  count_label df "y" = 1%nat ∧ ∃ s, col df "y" = Some s ∧ numeric s.

Definition has_forecast (df : DataFrame) (m : nat) : Prop :=
  count_label df (fmt "yhat" m) = 1%nat ∧
  count_label df (fmt "yhat_raw" m) = 0%nat ∧
  ∃ s, col df (fmt "yhat" m) = Some s ∧ numeric s.

Definition forecast_frame (n : Z) (df : DataFrame) : Prop :=
  NoDup (columns df) ∧ has_ids df ∧ has_label df ∧
  ∀ m, (1 ≤ m ≤ Z.to_nat n)%nat → has_forecast df m.

(** A frame whose columns all have as many cells as the frame has rows, as
    every pandas frame has. *)
Definition rectangular (df : DataFrame) : Prop :=
  Forall (λ p, length p.2 = nrows df) df.

(** What a frame carries once step [m] is classified in full, for the raw
    forecasts [xs] and the labels [ys]: the raw forecasts under
    [yhat_raw<m>], their roundings under [yhat<m>], the labels under [y],
    and under [residual<m>] the raw forecast minus the label, row by row. *)
Definition classified (m : nat) (xs ys : list float64) (df : DataFrame) : Prop :=
  col df (fmt "yhat_raw" m) = Some (Num <$> xs) ∧
  col df (fmt "yhat" m) = Some (Num ∘ rint <$> xs) ∧
  col df "y" = Some (Num <$> ys) ∧
  col df (fmt "residual" m) = Some (Num <$> zip_with f64_sub xs ys).

(** A float64 (zero, or a finite value in canonical form) with
    [0 <= x <= 1]. *)
Definition unit_interval (x : float64) : Prop :=
  valid_binary prec64 emax64 x = true ∧
  SFleb (S754_zero false) x = true ∧
  SFleb x (f64_of_Z 1) = true.

(** ** The object and its collaborators *)

(** The attributes of the instance that the class reads or writes; [attrs]
    holds whatever else the parent class keeps on the object. *)
Record NeuralProphet := {
  forecaster_locals : gmap string pyval;
  classification_task : bool;
  name : string;
  config_train : configure.Train;
  metrics : option MetricsCollection;
  n_lags : Z;
  n_forecasts : Z;
  config_covar : pyval;
  attrs : gmap string pyval
}.

Definition set_forecaster_locals (d : gmap string pyval) (o : NeuralProphet) :=
  {| forecaster_locals := d; classification_task := classification_task o;
     name := name o; config_train := config_train o; metrics := metrics o;
     n_lags := n_lags o; n_forecasts := n_forecasts o;
     config_covar := config_covar o; attrs := attrs o |}.
Definition set_classification_task (b : bool) (o : NeuralProphet) :=
  {| forecaster_locals := forecaster_locals o; classification_task := b;
     name := name o; config_train := config_train o; metrics := metrics o;
     n_lags := n_lags o; n_forecasts := n_forecasts o;
     config_covar := config_covar o; attrs := attrs o |}.
Definition set_name (s : string) (o : NeuralProphet) :=
  {| forecaster_locals := forecaster_locals o;
     classification_task := classification_task o;
     name := s; config_train := config_train o; metrics := metrics o;
     n_lags := n_lags o; n_forecasts := n_forecasts o;
     config_covar := config_covar o; attrs := attrs o |}.
Definition set_config_train (c : configure.Train) (o : NeuralProphet) :=
  {| forecaster_locals := forecaster_locals o;
     classification_task := classification_task o;
     name := name o; config_train := c; metrics := metrics o;
     n_lags := n_lags o; n_forecasts := n_forecasts o;
     config_covar := config_covar o; attrs := attrs o |}.
Definition set_metrics (m : option MetricsCollection) (o : NeuralProphet) :=
  {| forecaster_locals := forecaster_locals o;
     classification_task := classification_task o;
     name := name o; config_train := config_train o; metrics := m;
     n_lags := n_lags o; n_forecasts := n_forecasts o;
     config_covar := config_covar o; attrs := attrs o |}.

(** Arguments of [fit], positional and keyword. *)
Record fit_args := {
  fit_df : pyval;
  freq : pyval;
  validation_df : pyval;
  progress : pyval;
  minimal : pyval
}.

(** What a call leaves behind that a caller or a test double can see:
    records on the logger "NP.forecaster" and entries into the parent's
    methods. *)
Inductive event :=
| log_warning_record (msg : string)
| log_info_record (msg : string)
| super_fit_called (a : fit_args)
| super_predict_called (df : pyval).

Record state := {
  st_self : NeuralProphet;
  st_trace : list event
}.

(** Methods run in a state-and-exception monad over the object and the
    trace. *)
Definition M (A : Type) : Type := state → state * result A.

#[global] Instance M_ret : MRet M := λ A a st, (st, Ok a).
#[global] Instance M_bind : MBind M := λ A B f m st,
  match m st with
  | (st', Ok a) => f a st'
  | (st', Raise e) => (st', Raise e)
  end.

Definition raise {A} (e : exception) : M A := λ st, (st, Raise e).
Definition lift {A} (r : result A) : M A := λ st, (st, r).
Definition get_self : M NeuralProphet := λ st, (st, Ok (st_self st)).
Definition emit (ev : event) : M () :=
  λ st, ({| st_self := st_self st; st_trace := (st_trace st ++ [ev])%list |}, Ok ()).
Definition log_warning (msg : string) : M () := emit (log_warning_record msg).
Definition log_info (msg : string) : M () := emit (log_info_record msg).

(** What the file imports and calls but does not define: the parent class
    [NeuralProphet], [configure.from_kwargs] at [configure.Train], and
    three functions of [df_utils]. *)
Class Forecaster := {
  NeuralProphet_init : list pyval → gmap string pyval → result NeuralProphet;
  NeuralProphet_fit : fit_args → M pyval;
  NeuralProphet_predict : pyval → M pyval;
  from_kwargs : gmap string pyval → result configure.Train;
  get_max_num_lags : pyval → Z → Z;
  prep_or_copy_df : pyval → result (DataFrame * bool * bool * bool);
  return_df_in_original_format : DataFrame → bool → bool → bool → result pyval
}.

(** ** The class *)

Definition METRICS : gmap string metric :=
  <["acc" := Accuracy]> (<["bal_acc" := Balanced_Accuracy]> (<["f1" := F1Score]> ∅)).

(** [k in d.keys()] for a [str] [k]. *)
Definition in_keys {V} (d : gmap string V) (k : string) : bool :=
  bool_decide (is_Some (d !! k)).

(** [v.lower()].  [str] and [bytes] have the method, and an object of
    another class has it or not.  None of the other builtin types has an
    attribute of that name; a frame looks the name up among its column
    labels first, and what it finds there is a column (or, under a repeated
    label, a frame), which cannot be called. *)
Definition py_lower (v : pyval) : result pyval :=
  match v with
  | PyStr s => Ok (PyStr (lower s))
  | PyBytes b => Ok (PyBytes (lower b))
  | PyObj _ (Some r) => Ok r
  | PyFrame df =>
      match count_label df "lower" with
      | 0%nat => Raise (AttributeError "'DataFrame' object has no attribute 'lower'")
      | 1%nat => Raise (TypeError "'Series' object is not callable")
      | _ => Raise (TypeError "'DataFrame' object is not callable")
      end
  | _ => Raise (AttributeError ("'" +:+ type_name v +:+ "' object has no attribute 'lower'"))
  end.

(** [hash(v)], as far as it can fail: lists, dicts and frames cannot be
    hashed. *)
Definition py_hash (v : pyval) : result () :=
  match v with
  | PyList _ | PyDict _ =>
      Raise (TypeError ("unhashable type: '" +:+ type_name v +:+ "'"))
  | PyFrame _ =>
      Raise (TypeError "'DataFrame' objects are mutable, thus they cannot be hashed")
  | _ => Ok ()
  end.

(** [v in d.keys()] for a dict with [str] keys: the value is hashed, and no
    value of another type equals a [str]. *)
Definition py_in_keys {V} (d : gmap string V) (v : pyval) : result bool :=
  py_hash v;;
  mret (match v with
        | PyStr s => in_keys d s
        | _ => false
        end).

(** [d[v]] for a dict with [str] keys. *)
Definition py_getitem {V} (d : gmap string V) (v : pyval) : result V :=
  py_hash v;;
  match v with
  | PyStr s => dict_getitem d s
  | _ => Raise (KeyErrorOf v)
  end.

Definition unsupported_collect_metrics : exception :=
  ValueError "Received unsupported argument for collect_metrics.".

Definition ar_warning : string :=
  "Warning! Auto-regression is activated, the model is using the classifier label as input. Please consider setting n_lags=0.".

Definition no_lag_warning : string :=
  "Warning! Please add lagged regressor as the input of the classifier".

Definition unsupported_loss (loss_func_name : string) : exception :=
  NotImplementedError
    ("Currently NeuralProphet Classification module does not support "
       +:+ loss_func_name +:+ " loss function. Please, set loss function to 'bce' ").

(** [range(n)]. *)
Definition range (n : Z) : list nat := seq 0 (Z.to_nat n).

Module Classification_NP.
Section WithForecaster.
Context `{Forecaster}.

(** Lines 73 to 85: [collect_metrics] after the chain of tests. *)
Definition resolve_collect_metrics (collect_metrics : pyval) : result pyval :=
  match collect_metrics with
  | PyNone => Ok (PyList [])
  | PyBool true => Ok (PyList [PyStr "acc"; PyStr "bal_acc"; PyStr "f1"])
  | PyStr s =>
      if negb (in_keys METRICS (lower s)) then Raise unsupported_collect_metrics
      else Ok (PyList [collect_metrics])
  | PyList l =>
      tests ← mapM (λ m, r ← py_lower m; py_in_keys METRICS r) l;
      if negb (forallb id tests) then Raise unsupported_collect_metrics
      else Ok collect_metrics
  | PyBool false => Ok collect_metrics
  | _ => Raise unsupported_collect_metrics
  end.

(** Lines 87 to 93: the value of [self.metrics]. *)
Definition build_metrics (config_train : configure.Train) (collect_metrics : pyval)
    : result (option MetricsCollection) :=
  match collect_metrics with
  | PyList l =>
      requested ← mapM (λ m, k ← py_lower m; py_getitem METRICS k) l;
      Ok (Some {| batch_metrics :=
                    LossMetric (configure.loss_func config_train) :: requested;
                  value_metrics := [ValueMetric "Loss"] |})
  | _ => Ok None
  end.

(** [__init__(self, loss_func="bce", *args, **kwargs)]; the default of
    [loss_func] is filled in by the caller. *)
Definition __init__ (loss_func : pyval) (args : list pyval)
    (kwargs : gmap string pyval) : result NeuralProphet :=
  self ← NeuralProphet_init args kwargs;
  (* [kwargs] and [self.forecaster_locals] name one dict *)
  let kwargs := <["loss_func" := loss_func]> (forecaster_locals self) in
  let self := set_forecaster_locals kwargs self in
  let self := set_classification_task true self in
  collect_metrics ← dict_getitem kwargs "collect_metrics";
  let self := set_name "NeuralProphetBinaryClassifier" self in
  config ← from_kwargs kwargs;
  let self := set_config_train config self in
  collect_metrics ← resolve_collect_metrics collect_metrics;
  m ← build_metrics (config_train self) collect_metrics;
  mret (set_metrics m self).

(** [super().fit(...)] and [super().predict(df)]. *)
Definition super_fit (a : fit_args) : M pyval :=
  emit (super_fit_called a);; NeuralProphet_fit a.
Definition super_predict (df : pyval) : M pyval :=
  emit (super_predict_called df);; NeuralProphet_predict df.

Definition fit (df freq validation_df progress minimal : pyval) : M pyval :=
  self ← get_self;
  let max_lags := get_max_num_lags (config_covar self) (n_lags self) in
  (if bool_decide (n_lags self > 0) then log_warning ar_warning else mret ());;
  (if bool_decide (max_lags = 0) then log_warning no_lag_warning else mret ());;
  let loss_func_name := configure.loss_func_name (config_train self) in
  (if bool_decide (lower loss_func_name ∈ ["bce"; "bceloss"])
   then log_info "Classification with bce loss"
   else raise (unsupported_loss loss_func_name));;
  super_fit {| fit_df := df; freq := freq; validation_df := validation_df;
               progress := progress; minimal := minimal |}.

(** The body of [for i in range(self.n_forecasts)], up to the
    concatenation: the frame [df_i] after step [i]. *)
Definition predict_step (i : nat) (df_name : cell) (df_i : DataFrame)
    : result DataFrame :=
  let df_i := rename df_i (fmt "yhat" (i + 1)) (fmt "yhat_raw" (i + 1)) in
  yhat ← getitem df_i (fmt "yhat_raw" (i + 1));
  yhat ← to_float64 yhat;
  let df_i := setitem df_i (fmt "yhat" (i + 1)) (Num ∘ rint <$> yhat) in
  raw ← getitem df_i (fmt "yhat_raw" (i + 1));
  y ← getitem df_i "y";
  residual ← series_sub raw y;
  let df_i := setitem df_i (fmt "residual" (i + 1)) residual in
  let df_i := setitem_scalar df_i "ID" df_name in
  mret df_i.

(** The inner loop: [df_i] is carried from one step to the next, and
    [df_pred] grows by the frame of every step. *)
Fixpoint predict_steps (steps : list nat) (df_name : cell)
    (df_pred df_i : DataFrame) : result DataFrame :=
  match steps with
  | [] => mret df_pred
  | i :: steps' =>
      df_i ← predict_step i df_name df_i;
      df_pred ← concat df_pred df_i;
      predict_steps steps' df_name df_pred df_i
  end.

(** The outer loop, over the groups. *)
Fixpoint predict_groups (n_forecasts : Z) (groups : list (cell * DataFrame))
    (df_pred : DataFrame) : result DataFrame :=
  match groups with
  | [] => mret df_pred
  | (df_name, df_i) :: groups' =>
      df_pred ← predict_steps (range n_forecasts) df_name df_pred df_i;
      predict_groups n_forecasts groups' df_pred
  end.

(** Lines 131 to 140: from the normalised frame to [df_pred]. *)
Definition classify (n_forecasts : Z) (df : DataFrame) : result DataFrame :=
  groups ← groupby df "ID";
  predict_groups n_forecasts groups [].

Definition predict (df : pyval) : M pyval :=
  df ← super_predict df;
  '(df, received_ID_col, received_single_time_series, received_dict) ←
    lift (prep_or_copy_df df);
  self ← get_self;
  df_pred ← lift (classify (n_forecasts self) df);
  lift (return_df_in_original_format df_pred received_ID_col
          received_single_time_series received_dict).

End WithForecaster.
End Classification_NP.

(** ** A test double for the collaborators *)

Module Stub.

Definition int_or (d : Z) (v : option pyval) : Z :=
  match v with
  | Some (PyInt z) => z
  | _ => d
  end.

(** The parent's constructor keeps its keyword arguments as the resolved
    locals and reads [n_lags] and [n_forecasts] from them. *)
Definition parent (kwargs : gmap string pyval) : NeuralProphet :=
  {| forecaster_locals := kwargs;
     classification_task := false;
     name := "NeuralProphet";
     config_train := {| configure.loss_func := PyObj "SmoothL1Loss" None;
                        configure.loss_func_name := "SmoothL1Loss" |};
     metrics := None;
     n_lags := int_or 0 (kwargs !! "n_lags");
     n_forecasts := int_or 1 (kwargs !! "n_forecasts");
     config_covar := PyNone;
     attrs := ∅ |}.

Definition init (args : list pyval) (kwargs : gmap string pyval)
    : result NeuralProphet :=
  Ok (parent kwargs).

(** A string loss is kept under its own name; anything else is refused. *)
Definition train_from_kwargs (kwargs : gmap string pyval)
    : result configure.Train :=
  match kwargs !! "loss_func" with
  | Some (PyStr s) =>
      Ok {| configure.loss_func := PyStr s; configure.loss_func_name := s |}
  | _ => Raise (NotImplementedError "Loss function name not defined")
  end.

(** Training marks the object as fitted and returns a history object. *)
Definition do_fit (a : fit_args) : M pyval :=
  λ st,
    let o := st_self st in
    ({| st_self :=
          {| forecaster_locals := forecaster_locals o;
             classification_task := classification_task o;
             name := name o; config_train := config_train o;
             metrics := metrics o; n_lags := n_lags o;
             n_forecasts := n_forecasts o; config_covar := config_covar o;
             attrs := <["fitted" := PyBool true]> (attrs o) |};
        st_trace := st_trace st |},
     Ok (PyObj "metrics_history" None)).

(** Prediction hands its frame back; the frame already carries the raw
    forecasts. *)
Definition do_predict (df : pyval) : M pyval := mret df.

Definition prep (v : pyval) : result (DataFrame * bool * bool * bool) :=
  match v with
  | PyFrame df => Ok (df, true, false, false)
  | _ => Raise (ValueError "Please, insert valid df type (i.e. pd.DataFrame, dict)")
  end.

Definition unprep (df : DataFrame) (_ _ _ : bool) : result pyval :=
  Ok (PyFrame df).

#[global] Instance forecaster : Forecaster := {|
  NeuralProphet_init := init;
  NeuralProphet_fit := do_fit;
  NeuralProphet_predict := do_predict;
  from_kwargs := train_from_kwargs;
  get_max_num_lags := λ _ n, n;
  prep_or_copy_df := prep;
  return_df_in_original_format := unprep
|}.

Definition kwargs_with (collect_metrics : pyval) : gmap string pyval :=
  <["collect_metrics" := collect_metrics]> ∅.

(** A constructed classifier, given the name of its loss and its two
    orders, and the state of a first call on it. *)
Definition classifier (loss_name : string) (lags forecasts : Z) : NeuralProphet :=
  {| forecaster_locals := kwargs_with (PyBool false);
     classification_task := true;
     name := "NeuralProphetBinaryClassifier";
     config_train := {| configure.loss_func := PyObj loss_name None;
                        configure.loss_func_name := loss_name |};
     metrics := None;
     n_lags := lags;
     n_forecasts := forecasts;
     config_covar := PyNone;
     attrs := ∅ |}.

Definition fresh (o : NeuralProphet) : state :=
  {| st_self := o; st_trace := [] |}.

Definition call : fit_args :=
  {| fit_df := PyFrame []; freq := PyStr "auto"; validation_df := PyNone;
     progress := PyStr "bar"; minimal := PyBool false |}.

(** Two series, "B" listed before "A", with two rows each and the raw
    forecasts of two steps. *)
Definition two_series : DataFrame :=
  [("ds", [Num (f64_of_Z 1); Num (f64_of_Z 2); Num (f64_of_Z 1); Num (f64_of_Z 2)]);
   ("y", [Num (f64_of_Z 1); Num (f64_of_Z 0); Num (f64_of_Z 0); Num (f64_of_Z 1)]);
   ("ID", [Txt "B"; Txt "B"; Txt "A"; Txt "A"]);
   ("yhat1", [Num (f64_dyadic 7 3); Num (f64_dyadic 1 3);
              Num (f64_dyadic 1 2); Num (f64_dyadic 3 2)]);
   ("yhat2", [Num (f64_dyadic 5 3); Num (f64_dyadic 1 3);
              Num (f64_dyadic 1 2); Num (f64_dyadic 3 2)])].

(** One series with one row: label 1, raw forecasts 0.25 and 0.75. *)
Definition one_row : DataFrame :=
  [("ds", [Num (f64_of_Z 1)]);
   ("y", [Num (f64_of_Z 1)]);
   ("ID", [Txt "A"]);
   ("yhat1", [Num (f64_dyadic 1 2)]);
   ("yhat2", [Num (f64_dyadic 3 2)])].

(** The frame of the spec's round trip: series "A" with raw forecasts 0.2
    and 0.8, series "B" with 0.9 and 0.1, as the nearest doubles. *)
Definition round_trip : DataFrame :=
  [("ds", [Num (f64_of_Z 1); Num (f64_of_Z 2); Num (f64_of_Z 1); Num (f64_of_Z 2)]);
   ("y", [Num (f64_of_Z 0); Num (f64_of_Z 1); Num (f64_of_Z 1); Num (f64_of_Z 1)]);
   ("ID", [Txt "A"; Txt "A"; Txt "B"; Txt "B"]);
   ("yhat1", [Num (f64_dyadic 7205759403792794 55); Num (f64_dyadic 7205759403792794 53);
              Num (f64_dyadic 8106479329266893 53); Num (f64_dyadic 7205759403792794 56)])].

(** One row of series "A" with raw forecast [x] and label [y]. *)
Definition single_row (x y : float64) : DataFrame :=
  [("ds", [Num (f64_of_Z 1)]);
   ("y", [Num y]);
   ("ID", [Txt "A"]);
   ("yhat1", [Num x])].

(** The same collaborators for a model with one lagged regressor of five
    lags. *)
Definition with_lagged_regressor : Forecaster := {|
  NeuralProphet_init := init;
  NeuralProphet_fit := do_fit;
  NeuralProphet_predict := do_predict;
  from_kwargs := train_from_kwargs;
  get_max_num_lags := λ _ n, Z.max n 5;
  prep_or_copy_df := prep;
  return_df_in_original_format := unprep
|}.

(** Keyword arguments with both orders and no metrics. *)
Definition kwargs_orders : gmap string pyval :=
  <["n_lags" := PyInt 3]> (<["n_forecasts" := PyInt 2]> (kwargs_with (PyBool false))).

(** One row of series "A" with a raw forecast and no label column. *)
Definition no_label : DataFrame :=
  [("ds", [Num (f64_of_Z 1)]);
   ("ID", [Txt "A"]);
   ("yhat1", [Num (f64_dyadic 1 2)])].

Definition fit_call (o : NeuralProphet) : state * result pyval :=
  Classification_NP.fit (fit_df call) (freq call) (validation_df call)
    (progress call) (minimal call) (fresh o).

End Stub.


(** * Facts *)

(** ** Checks on small inputs *)

Example lower_mixed_case : lower "Bal_ACC" = "bal_acc".
Proof. reflexivity. Qed.

Example fmt_step : fmt "yhat_raw" 12 = "yhat_raw12".
Proof. reflexivity. Qed.

(** Ties go to the even integer. *)
Example rint_ties :
  rint (f64_dyadic 1 1) = f64_of_Z 0 ∧
  rint (f64_dyadic 3 1) = f64_of_Z 2 ∧
  rint (f64_dyadic 5 1) = f64_of_Z 2 ∧
  rint (f64_dyadic (-3) 1) = f64_of_Z (-2).
Proof. repeat split; reflexivity. Qed.

Example rint_nearest :
  rint (f64_dyadic 1 2) = f64_of_Z 0 ∧
  rint (f64_dyadic 3 2) = f64_of_Z 1 ∧
  rint (f64_dyadic (-3) 2) = f64_of_Z (-1) ∧
  rint (f64_of_Z 7) = f64_of_Z 7 ∧
  rint (S754_infinity false) = S754_infinity false ∧
  rint nan = nan.
Proof. repeat split; reflexivity. Qed.

(** A small negative value rounds to the negative zero. *)
Example rint_negative_zero : rint (f64_dyadic (-1) 2) = S754_zero true.
Proof. reflexivity. Qed.

Example f64_sub_exact : f64_sub (f64_dyadic 1 2) (f64_of_Z 1) = f64_dyadic (-3) 2.
Proof. reflexivity. Qed.

Example group_keys_sorts :
  group_keys [Txt "B"; Num (f64_of_Z 2); Txt "A"; Num nan; Txt "B"; Num (f64_of_Z 1);
              Txt "C"; Num (f64_of_Z 2); Txt "A"]
  = [Num (f64_of_Z 1); Num (f64_of_Z 2); Txt "A"; Txt "B"; Txt "C"].
Proof. vm_compute. reflexivity. Qed.

Example group_keys_first_row :
  group_keys [Num (S754_zero true); Num (S754_zero false)] = [Num (S754_zero true)].
Proof. reflexivity. Qed.

Example group_ids_sorts : group_ids ["B"; "A"; "B"; "C"; "A"] = ["A"; "B"; "C"].
Proof. reflexivity. Qed.

Example concat_fills_nan :
  concat [("a", [Txt "x"])] [("a", [Txt "y"]); ("b", [Txt "z"])]
  = Ok [("a", [Txt "x"; Txt "y"]); ("b", [Num nan; Txt "z"])].
Proof. vm_compute. reflexivity. Qed.

Example concat_repeated_label :
  concat [("a", [Txt "x"]); ("a", [Txt "y"])]
         [("a", [Txt "u"]); ("a", [Txt "v"])]
    = Ok [("a", [Txt "x"; Txt "u"]); ("a", [Txt "y"; Txt "v"])] ∧
  concat [("a", [Txt "x"]); ("a", [Txt "y"])]
         [("a", [Txt "u"]); ("a", [Txt "v"]); ("b", [Txt "w"])]
    = Raise (InvalidIndexError
               "Reindexing only valid with uniquely valued Index objects").
Proof. split; vm_compute; reflexivity. Qed.

(** The round trip of the spec: raw forecasts 0.2, 0.8 for "A" and 0.9, 0.1
    for "B" give the classes 0, 1 and 1, 0, and both identifiers in their
    order. *)
Example round_trip_classes :
  ∃ out,
    Classification_NP.classify 1 Stub.round_trip = Ok out ∧
    col out "ID" = Some [Txt "A"; Txt "A"; Txt "B"; Txt "B"] ∧
    col out "yhat1" = Some [Num (f64_of_Z 0); Num (f64_of_Z 1);
                            Num (f64_of_Z 1); Num (f64_of_Z 0)] ∧
    col out "yhat_raw1" = col Stub.round_trip "yhat1".
Proof.
  eexists. split; [vm_compute; reflexivity |]. repeat split; vm_compute; reflexivity.
Qed.

(** ** The metric names *)

Lemma in_keys_METRICS (k : string) :
  in_keys METRICS k = true ↔ k = "acc" ∨ k = "bal_acc" ∨ k = "f1".
Proof.
  unfold in_keys, METRICS. rewrite bool_decide_eq_true.
  destruct (decide (k = "acc")) as [->|]; [split; [auto | eauto] |].
  destruct (decide (k = "bal_acc")) as [->|]; [split; [auto | eauto] |].
  destruct (decide (k = "f1")) as [->|]; [split; [auto | eauto] |].
  rewrite !lookup_insert_ne, lookup_empty by done.
  split; [intros [? [=]] | intros [? | [? | ?]]; done].
Qed.

(** ** The constructor, run *)

Section InitFacts.
Context `{Forecaster}.
Variables (loss : pyval) (args : list pyval) (kwargs : gmap string pyval).
Variables (self0 : NeuralProphet) (cm : pyval) (cfg : configure.Train).
Hypothesis Hsuper : NeuralProphet_init args kwargs = Ok self0.
Hypothesis Hcm : forecaster_locals self0 !! "collect_metrics" = Some cm.
Hypothesis Hcfg :
  from_kwargs (<["loss_func" := loss]> (forecaster_locals self0)) = Ok cfg.

(** Once the parent's constructor and [from_kwargs] have returned, the
    constructor is the resolution of [collect_metrics] followed by the
    construction of the metrics. *)
Lemma init_run :
  Classification_NP.__init__ loss args kwargs =
    (r ← Classification_NP.resolve_collect_metrics cm;
     m ← Classification_NP.build_metrics cfg r;
     mret (set_metrics m
             (set_config_train cfg
                (set_name "NeuralProphetBinaryClassifier"
                   (set_classification_task true
                      (set_forecaster_locals
                         (<["loss_func" := loss]> (forecaster_locals self0))
                         self0)))))).
Proof.
  unfold Classification_NP.__init__. rewrite Hsuper. cbn.
  unfold dict_getitem. rewrite lookup_insert_ne by done. rewrite Hcm. cbn.
  rewrite Hcfg. cbn. reflexivity.
Qed.

End InitFacts.

(** Line 82 on a list of strings: one test per name, none of which
    raises. *)
Lemma mapM_tests_names (names : list string) :
  mapM (λ m, r ← py_lower m; py_in_keys METRICS r) (PyStr <$> names)
    = Ok (in_keys METRICS ∘ lower <$> names).
Proof.
  induction names as [|s names IH]; [reflexivity |].
  cbn. cbn in IH. rewrite IH. reflexivity.
Qed.

Lemma mapM_lookup_names (names : list string) :
  Forall (λ s, in_keys METRICS (lower s) = true) names →
  ∃ requested,
    mapM (λ m, k ← py_lower m; py_getitem METRICS k) (PyStr <$> names)
      = Ok requested ∧
    Forall2 (λ s m, METRICS !! lower s = Some m) names requested.
Proof.
  induction 1 as [|s names Hs _ [requested [IH1 IH2]]].
  - exists []. split; [reflexivity | constructor].
  - unfold in_keys in Hs. apply bool_decide_eq_true in Hs as [m Hm].
    exists (m :: requested). split; [| by constructor].
    cbn. cbn in IH1. rewrite IH1. unfold dict_getitem. rewrite Hm.
    reflexivity.
Qed.

Lemma forallb_in_keys_false (names : list string) :
  Exists (λ s, in_keys METRICS (lower s) = false) names →
  forallb id (in_keys METRICS ∘ lower <$> names) = false.
Proof.
  induction 1 as [s names Hs | s names _ IH]; cbn.
  - rewrite Hs. reflexivity.
  - cbn in IH. rewrite IH. apply andb_false_r.
Qed.

Lemma forallb_in_keys_true (names : list string) :
  Forall (λ s, in_keys METRICS (lower s) = true) names →
  forallb id (in_keys METRICS ∘ lower <$> names) = true.
Proof.
  induction 1 as [|s names Hs _ IH]; cbn; [reflexivity |].
  rewrite Hs. exact IH.
Qed.

Lemma supported_in_keys (s : string) :
  lower s ∈ ["acc"; "bal_acc"; "f1"] ↔ in_keys METRICS (lower s) = true.
Proof.
  rewrite in_keys_METRICS, !elem_of_cons, elem_of_nil. tauto.
Qed.

Lemma unsupported_in_keys (s : string) :
  lower s ∉ ["acc"; "bal_acc"; "f1"] → in_keys METRICS (lower s) = false.
Proof.
  intros Hs. apply not_true_is_false. by rewrite <- supported_in_keys.
Qed.

(** ** The claims on the constructor *)

(** C1, as the claim has it, fails: with [collect_metrics] absent or the
    empty list the constructor does set the metrics collection. *)
Lemma C1_counterexample :
  (∃ o, Classification_NP.__init__ (PyStr "bce") [] (Stub.kwargs_with PyNone) = Ok o ∧
        metrics o ≠ None) ∧
  (∃ o, Classification_NP.__init__ (PyStr "bce") [] (Stub.kwargs_with (PyList [])) = Ok o ∧
        metrics o ≠ None).
Proof.
  split; eexists; (split; [vm_compute; reflexivity | discriminate]).
Qed.

(** C1, amended: constructed with [collect_metrics] equal to [None] or to
    the empty list, the classifier tracks no named metric, and its metrics
    collection is set: it holds the loss metric of the configured loss
    function and the "Loss" value tracker, nothing else. *)
Theorem C1_none_or_empty_tracks_loss_only `{Forecaster}
    (loss : pyval) (args : list pyval) (kwargs : gmap string pyval)
    (self0 : NeuralProphet) (cm : pyval) (cfg : configure.Train) :
  NeuralProphet_init args kwargs = Ok self0 →
  forecaster_locals self0 !! "collect_metrics" = Some cm →
  from_kwargs (<["loss_func" := loss]> (forecaster_locals self0)) = Ok cfg →
  cm = PyNone ∨ cm = PyList [] →
  ∃ o, Classification_NP.__init__ loss args kwargs = Ok o ∧
       metrics o = Some {| batch_metrics := [LossMetric (configure.loss_func cfg)];
                           value_metrics := [ValueMetric "Loss"] |}.
Proof.
  intros Hsuper Hcm Hcfg Hnone.
  rewrite (init_run _ _ _ _ _ _ Hsuper Hcm Hcfg).
  destruct Hnone as [-> | ->]; eexists; (split; [reflexivity |]); reflexivity.
Qed.

(** C1, amended, on the test double with [collect_metrics] absent. *)
Lemma C1_witness :
  ∃ o, Classification_NP.__init__ (PyStr "bce") [] (Stub.kwargs_with PyNone) = Ok o ∧
       metrics o = Some {| batch_metrics := [LossMetric (PyStr "bce")];
                           value_metrics := [ValueMetric "Loss"] |}.
Proof.
  apply (C1_none_or_empty_tracks_loss_only (PyStr "bce") [] (Stub.kwargs_with PyNone)
           (Stub.parent (Stub.kwargs_with PyNone)) PyNone
           {| configure.loss_func := PyStr "bce"; configure.loss_func_name := "bce" |}).
  - reflexivity.
  - vm_compute. reflexivity.
  - vm_compute. reflexivity.
  - left. reflexivity.
Defined.

(** C5 at the list ["xyz", 42]: the test of line 82 calls [.lower()] on
    every entry before it looks at the results, so the entry 42 stops the
    constructor with the attribute error of [int], and the configuration
    error for the unsupported entry is never raised.  The sibling paths
    raise it: line 85 for the value 42 itself, line 79 for the name "xyz",
    and line 83 for the list ["acc", "xyz"]. *)
Theorem C5_entry_without_lower_misses_configuration_error :
  Classification_NP.__init__ (PyStr "bce") []
      (Stub.kwargs_with (PyList [PyStr "xyz"; PyInt 42]))
    = Raise (AttributeError "'int' object has no attribute 'lower'") ∧
  AttributeError "'int' object has no attribute 'lower'" ≠ unsupported_collect_metrics ∧
  Classification_NP.__init__ (PyStr "bce") [] (Stub.kwargs_with (PyInt 42))
    = Raise unsupported_collect_metrics ∧
  Classification_NP.__init__ (PyStr "bce") [] (Stub.kwargs_with (PyStr "xyz"))
    = Raise unsupported_collect_metrics ∧
  Classification_NP.__init__ (PyStr "bce") []
      (Stub.kwargs_with (PyList [PyStr "acc"; PyStr "xyz"]))
    = Raise unsupported_collect_metrics.
Proof.
  split; [vm_compute; reflexivity |]. split; [discriminate |].
  repeat split; vm_compute; reflexivity.
Qed.

(** C6: with [collect_metrics] equal to [True] the resolved names are
    "acc", "bal_acc" and "f1", and the collection holds their three metric
    objects after the loss metric; with [False] nothing is resolved and the
    metrics collection is left unset. *)
Theorem C6_true_all_false_none `{Forecaster}
    (loss : pyval) (args : list pyval) (kwargs : gmap string pyval)
    (self0 : NeuralProphet) (b : bool) (cfg : configure.Train) :
  NeuralProphet_init args kwargs = Ok self0 →
  forecaster_locals self0 !! "collect_metrics" = Some (PyBool b) →
  from_kwargs (<["loss_func" := loss]> (forecaster_locals self0)) = Ok cfg →
  ∃ o, Classification_NP.__init__ loss args kwargs = Ok o ∧
    if b then
      Classification_NP.resolve_collect_metrics (PyBool true)
        = Ok (PyList [PyStr "acc"; PyStr "bal_acc"; PyStr "f1"]) ∧
      metrics o = Some {| batch_metrics :=
                            [LossMetric (configure.loss_func cfg);
                             Accuracy; Balanced_Accuracy; F1Score];
                          value_metrics := [ValueMetric "Loss"] |}
    else
      Classification_NP.resolve_collect_metrics (PyBool false) = Ok (PyBool false) ∧
      metrics o = None.
Proof.
  intros Hsuper Hcm Hcfg.
  rewrite (init_run _ _ _ _ _ _ Hsuper Hcm Hcfg).
  destruct b; eexists; (split; [reflexivity |]); split; reflexivity.
Qed.

(** C6 on the test double, for [True] and for [False]. *)
Lemma C6_witness :
  (∃ o, Classification_NP.__init__ (PyStr "bce") [] (Stub.kwargs_with (PyBool true)) = Ok o ∧
        metrics o = Some {| batch_metrics :=
                              [LossMetric (PyStr "bce"); Accuracy; Balanced_Accuracy; F1Score];
                            value_metrics := [ValueMetric "Loss"] |}) ∧
  (∃ o, Classification_NP.__init__ (PyStr "bce") [] (Stub.kwargs_with (PyBool false)) = Ok o ∧
        metrics o = None).
Proof.
  pose (cfg := {| configure.loss_func := PyStr "bce"; configure.loss_func_name := "bce" |}).
  split.
  - destruct (C6_true_all_false_none (PyStr "bce") [] (Stub.kwargs_with (PyBool true))
                (Stub.parent (Stub.kwargs_with (PyBool true))) true cfg)
      as (o & Ho & _ & Hm);
      [reflexivity | vm_compute; reflexivity | vm_compute; reflexivity |].
    exists o. split; assumption.
  - destruct (C6_true_all_false_none (PyStr "bce") [] (Stub.kwargs_with (PyBool false))
                (Stub.parent (Stub.kwargs_with (PyBool false))) false cfg)
      as (o & Ho & _ & Hm);
      [reflexivity | vm_compute; reflexivity | vm_compute; reflexivity |].
    exists o. split; assumption.
Defined.

(** C7: for a supported single name, and for a list of supported names, in
    any letter case, construction succeeds and the metrics collection holds
    the loss metric of the configured loss function, then one metric object
    per requested name (the entry of [METRICS] under the lowered name), and
    the one value tracker "Loss". *)
Theorem C7_supported_names_build_collection `{Forecaster}
    (loss : pyval) (args : list pyval) (kwargs : gmap string pyval)
    (self0 : NeuralProphet) (cm : pyval) (cfg : configure.Train)
    (names : list string) :
  NeuralProphet_init args kwargs = Ok self0 →
  forecaster_locals self0 !! "collect_metrics" = Some cm →
  from_kwargs (<["loss_func" := loss]> (forecaster_locals self0)) = Ok cfg →
  (∃ s, cm = PyStr s ∧ names = [s]) ∨ cm = PyList (PyStr <$> names) →
  Forall (λ s, lower s ∈ ["acc"; "bal_acc"; "f1"]) names →
  ∃ o requested,
    Classification_NP.__init__ loss args kwargs = Ok o ∧
    metrics o = Some {| batch_metrics := LossMetric (configure.loss_func cfg) :: requested;
                        value_metrics := [ValueMetric "Loss"] |} ∧
    Forall2 (λ s m, METRICS !! lower s = Some m) names requested.
Proof.
  intros Hsuper Hcm Hcfg Hshape Hnames.
  rewrite (init_run _ _ _ _ _ _ Hsuper Hcm Hcfg).
  assert (Hkeys : Forall (λ s, in_keys METRICS (lower s) = true) names).
  { eapply Forall_impl; [exact Hnames |]. intros s Hs. by apply supported_in_keys. }
  destruct (mapM_lookup_names names Hkeys) as (requested & Hreq & Hall).
  exists (set_metrics
            (Some {| batch_metrics := LossMetric (configure.loss_func cfg) :: requested;
                     value_metrics := [ValueMetric "Loss"] |})
            (set_config_train cfg
               (set_name "NeuralProphetBinaryClassifier"
                  (set_classification_task true
                     (set_forecaster_locals
                        (<["loss_func" := loss]> (forecaster_locals self0)) self0))))),
    requested.
  split; [| split; [reflexivity | exact Hall]].
  destruct Hshape as [(s & -> & ->) | ->].
  - apply Forall_cons in Hkeys as [Hs _]. cbn. rewrite Hs. cbn.
    cbn in Hreq. destruct (dict_getitem METRICS (lower s)) as [m |]; [| discriminate].
    cbn in Hreq. injection Hreq as <-. reflexivity.
  - cbn. pose proof (mapM_tests_names names) as Htests. cbn in Htests.
    rewrite Htests. cbn. rewrite (forallb_in_keys_true names Hkeys). cbn.
    cbn in Hreq. rewrite Hreq. reflexivity.
Qed.

(** C7 on the test double, for a list in mixed letter case with a repeated
    name. *)
Lemma C7_witness :
  ∃ o requested,
    Classification_NP.__init__ (PyStr "bce") []
      (Stub.kwargs_with (PyList (PyStr <$> ["F1"; "Bal_Acc"; "acc"; "F1"]))) = Ok o ∧
    metrics o = Some {| batch_metrics := LossMetric (PyStr "bce") :: requested;
                        value_metrics := [ValueMetric "Loss"] |} ∧
    Forall2 (λ s m, METRICS !! lower s = Some m) ["F1"; "Bal_Acc"; "acc"; "F1"] requested.
Proof.
  pose (cfg := {| configure.loss_func := PyStr "bce"; configure.loss_func_name := "bce" |}).
  pose (cm := PyList (PyStr <$> ["F1"; "Bal_Acc"; "acc"; "F1"])).
  apply (C7_supported_names_build_collection (PyStr "bce") [] (Stub.kwargs_with cm)
           (Stub.parent (Stub.kwargs_with cm)) cm cfg ["F1"; "Bal_Acc"; "acc"; "F1"]).
  - reflexivity.
  - vm_compute. reflexivity.
  - vm_compute. reflexivity.
  - right. reflexivity.
  - vm_compute. repeat constructor.
Defined.

(** C10: after every successful construction with loss-function identifier
    [loss], the resolved configuration values hold [loss] under "loss_func",
    the training configuration is the one [from_kwargs] builds from those
    values, and the classification-task flag is true. *)
Theorem C10_loss_overridden_and_flag_set `{Forecaster}
    (loss : pyval) (args : list pyval) (kwargs : gmap string pyval)
    (o : NeuralProphet) :
  Classification_NP.__init__ loss args kwargs = Ok o →
  forecaster_locals o !! "loss_func" = Some loss ∧
  from_kwargs (forecaster_locals o) = Ok (config_train o) ∧
  classification_task o = true.
Proof.
  unfold Classification_NP.__init__.
  destruct (NeuralProphet_init args kwargs) as [self0 |]; [cbn | discriminate].
  destruct (dict_getitem _ "collect_metrics") as [cm |]; [cbn | discriminate].
  destruct (from_kwargs _) as [cfg |] eqn:Hcfg; [cbn | discriminate].
  destruct (Classification_NP.resolve_collect_metrics cm) as [r |]; [cbn | discriminate].
  destruct (Classification_NP.build_metrics cfg r) as [m |]; [cbn | discriminate].
  intros [= <-]. cbn. split; [apply lookup_insert_eq | split; [exact Hcfg | reflexivity]].
Qed.

(** C10 on the test double. *)
Lemma C10_witness :
  ∃ o,
    Classification_NP.__init__ (PyStr "bce") [] (Stub.kwargs_with (PyBool true)) = Ok o ∧
    forecaster_locals o !! "loss_func" = Some (PyStr "bce") ∧
    from_kwargs (forecaster_locals o) = Ok (config_train o) ∧
    classification_task o = true.
Proof.
  eexists. split; [vm_compute; reflexivity |].
  apply (C10_loss_overridden_and_flag_set (PyStr "bce") [] (Stub.kwargs_with (PyBool true))).
  vm_compute. reflexivity.
Defined.

(** ** The claims on [fit] *)

(** [fit], run: the warnings go to the trace; then either the info record,
    the entry into the parent's [fit] and the parent's [fit] itself, or the
    error. *)
Lemma fit_run `{Forecaster}
    (df freq validation_df progress minimal : pyval) (o : NeuralProphet)
    (tr : list event) :
  let a := {| fit_df := df; freq := freq; validation_df := validation_df;
              progress := progress; minimal := minimal |} in
  let warnings :=
    (if bool_decide (n_lags o > 0) then [log_warning_record ar_warning] else []) ++
    (if bool_decide (get_max_num_lags (config_covar o) (n_lags o) = 0)
     then [log_warning_record no_lag_warning] else []) in
  Classification_NP.fit df freq validation_df progress minimal
      {| st_self := o; st_trace := tr |} =
    if bool_decide (lower (configure.loss_func_name (config_train o)) ∈ ["bce"; "bceloss"])
    then NeuralProphet_fit a
           {| st_self := o;
              st_trace := tr ++ warnings ++
                          [log_info_record "Classification with bce loss";
                           super_fit_called a] |}
    else ({| st_self := o; st_trace := tr ++ warnings |},
          Raise (unsupported_loss (configure.loss_func_name (config_train o)))).
Proof.
  intros a warnings. subst a warnings.
  unfold Classification_NP.fit, Classification_NP.super_fit.
  unfold get_self, log_warning, log_info, emit, raise, mbind, M_bind, mret, M_ret.
  cbv beta iota zeta delta [st_self st_trace].
  do 3 case_bool_decide; cbn [app];
    rewrite <- ?app_assoc, ?app_nil_r; cbn [app]; reflexivity.
Qed.

(** C3: when the lowered loss-function name is neither "bce" nor "bceloss",
    [fit] raises the not-implemented error that names the loss function;
    the object is left as it was, and the trace grows by warnings only: the
    parent's [fit] has not been entered. *)
Theorem C3_fit_rejects_other_losses `{Forecaster}
    (df freq validation_df progress minimal : pyval) (st : state) :
  lower (configure.loss_func_name (config_train (st_self st))) ∉ ["bce"; "bceloss"] →
  ∃ warnings,
    Classification_NP.fit df freq validation_df progress minimal st =
      ({| st_self := st_self st; st_trace := st_trace st ++ warnings |},
       Raise (unsupported_loss (configure.loss_func_name (config_train (st_self st))))) ∧
    Forall (λ ev, ∃ msg, ev = log_warning_record msg) warnings ∧
    ∀ a, super_fit_called a ∉ warnings.
Proof.
  intros Hloss. destruct st as [o tr]. cbn [st_self st_trace] in *.
  eexists. split; [| split].
  - rewrite fit_run. rewrite (bool_decide_eq_false_2 _ Hloss). reflexivity.
  - apply Forall_app. split; case_bool_decide; repeat constructor; eauto.
  - intros a Hin. apply elem_of_app in Hin as [Hin | Hin];
      case_bool_decide; try (by apply elem_of_nil in Hin);
      by apply list_elem_of_singleton in Hin.
Qed.

(** C3 on the test double, with the loss name "MSELoss". *)
Lemma C3_witness :
  ∃ warnings,
    Stub.fit_call (Stub.classifier "MSELoss" 0 1) =
      ({| st_self := Stub.classifier "MSELoss" 0 1; st_trace := [] ++ warnings |},
       Raise (unsupported_loss "MSELoss")) ∧
    Forall (λ ev, ∃ msg, ev = log_warning_record msg) warnings ∧
    ∀ a, super_fit_called a ∉ warnings.
Proof.
  apply (C3_fit_rejects_other_losses (fit_df Stub.call) (freq Stub.call)
           (validation_df Stub.call) (progress Stub.call) (minimal Stub.call)
           (Stub.fresh (Stub.classifier "MSELoss" 0 1))).
  vm_compute. intros Hin.
  repeat (apply elem_of_cons in Hin as [Hin | Hin]; [discriminate |]).
  by apply elem_of_nil in Hin.
Defined.

(** C9, as the claim has it, fails: with [n_lags] above zero and a loss
    other than bce, [fit] warns and then raises; the parent's [fit], which
    would have returned a history, is not entered. *)
Lemma C9_counterexample :
  n_lags (Stub.classifier "MSELoss" 1 1) > 0 ∧
  (Stub.fit_call (Stub.classifier "MSELoss" 1 1)).2 = Raise (unsupported_loss "MSELoss") ∧
  st_trace (Stub.fit_call (Stub.classifier "MSELoss" 1 1)).1
    = [log_warning_record ar_warning] ∧
  (∀ st, (NeuralProphet_fit Stub.call st).2 = Ok (PyObj "metrics_history" None)).
Proof.
  split; [reflexivity |]. split; [vm_compute; reflexivity |].
  split; [vm_compute; reflexivity |]. intros st. reflexivity.
Qed.

(** C9, amended: when the loss-function name is "bce" or "bceloss" in any
    letter case, and [n_lags] is above zero or the maximum lag is zero,
    only a warning is emitted and nothing is raised.  [fit] logs the
    auto-regression warning exactly when [n_lags] is above zero, then the
    lagged-regressor warning exactly when the maximum lag is zero, so at
    least one of the two and nothing else before the info record; it then
    enters the parent's [fit] with the same arguments and on the same
    object, and returns what the parent's [fit] returns. *)
Theorem C9_fit_warns_and_delegates `{Forecaster}
    (df freq validation_df progress minimal : pyval) (st : state) :
  let o := st_self st in
  let a := {| fit_df := df; freq := freq; validation_df := validation_df;
              progress := progress; minimal := minimal |} in
  let warnings :=
    (if bool_decide (n_lags o > 0) then [log_warning_record ar_warning] else []) ++
    (if bool_decide (get_max_num_lags (config_covar o) (n_lags o) = 0)
     then [log_warning_record no_lag_warning] else []) in
  lower (configure.loss_func_name (config_train o)) ∈ ["bce"; "bceloss"] →
  n_lags o > 0 ∨ get_max_num_lags (config_covar o) (n_lags o) = 0 →
  warnings ≠ [] ∧
  Classification_NP.fit df freq validation_df progress minimal st =
    NeuralProphet_fit a
      {| st_self := o;
         st_trace := st_trace st ++ warnings ++
                     [log_info_record "Classification with bce loss";
                      super_fit_called a] |}.
Proof.
  destruct st as [o tr]. cbv zeta. cbn [st_self st_trace]. intros Hloss Hcond.
  split.
  - intros Hnil. apply app_eq_nil in Hnil as [Hnil1 Hnil2].
    destruct Hcond as [Hlag | Hmax].
    + rewrite (bool_decide_eq_true_2 _ Hlag) in Hnil1. discriminate.
    + rewrite (bool_decide_eq_true_2 _ Hmax) in Hnil2. discriminate.
  - rewrite fit_run. rewrite (bool_decide_eq_true_2 _ Hloss). reflexivity.
Qed.

(** C9, amended, on the test double: [n_lags] is 0 and there is no
    covariate, so the maximum lag is 0 and the one warning is the one for
    the lagged regressor. *)
Lemma C9_witness :
  let o := Stub.classifier "BCELoss" 0 1 in
  let warnings :=
    (if bool_decide (n_lags o > 0) then [log_warning_record ar_warning] else []) ++
    (if bool_decide (get_max_num_lags (config_covar o) (n_lags o) = 0)
     then [log_warning_record no_lag_warning] else []) in
  warnings ≠ [] ∧
  Stub.fit_call o =
    NeuralProphet_fit Stub.call
      {| st_self := o;
         st_trace := [] ++ warnings ++
                     [log_info_record "Classification with bce loss";
                      super_fit_called Stub.call] |}.
Proof.
  apply (C9_fit_warns_and_delegates (fit_df Stub.call) (freq Stub.call)
           (validation_df Stub.call) (progress Stub.call) (minimal Stub.call)
           (Stub.fresh (Stub.classifier "BCELoss" 0 1))).
  - vm_compute. apply list_elem_of_further, list_elem_of_here.
  - right. reflexivity.
Defined.

(** ** Frames *)

Lemma bind_Ok {A B} (m : result A) (f : A → result B) (b : B) :
  m ≫= f = Ok b → ∃ a, m = Ok a ∧ f a = Ok b.
Proof. destruct m as [a |]; [eauto | discriminate]. Qed.

Lemma col_app (a b : DataFrame) (c : string) :
  col (a ++ b) c = match col a c with Some s => Some s | None => col b c end.
Proof.
  induction a as [|[c' s] a IH]; cbn; [reflexivity |].
  destruct (String.eqb c' c); [reflexivity | exact IH].
Qed.

Lemma col_rename_ne (df : DataFrame) (old new c : string) :
  c ≠ old → c ≠ new → col (rename df old new) c = col df c.
Proof.
  intros Hold Hnew. induction df as [|[c' s] df IH]; cbn; [reflexivity |].
  destruct (String.eqb_spec c' old) as [-> | Hc'].
  - destruct (String.eqb_spec new c) as [<- | _]; [done |].
    destruct (String.eqb_spec old c) as [<- | _]; [done | exact IH].
  - destruct (String.eqb_spec c' c); [reflexivity | exact IH].
Qed.

Lemma col_rename_new (df : DataFrame) (old new : string) :
  col df new = None → col (rename df old new) new = col df old.
Proof.
  unfold rename. induction df as [|[c' s] df IH]; cbn; [reflexivity |].
  destruct (String.eqb_spec c' new) as [-> | Hne]; [discriminate |].
  intros Hz. destruct (String.eqb_spec c' old) as [-> | _].
  - rewrite String.eqb_refl. reflexivity.
  - destruct (String.eqb_spec c' new); [done | by apply IH].
Qed.

Lemma col_map_ne (f : Series → Series) (df : DataFrame) (c' c : string) :
  c ≠ c' →
  col (map (λ p, if String.eqb p.1 c' then (p.1, f p.2) else p) df) c = col df c.
Proof.
  intros Hne. induction df as [|[c0 s] df IH]; cbn; [reflexivity |].
  destruct (String.eqb_spec c0 c') as [-> | _]; cbn.
  - destruct (String.eqb_spec c' c) as [<- | _]; [done | exact IH].
  - destruct (String.eqb_spec c0 c); [reflexivity | exact IH].
Qed.

Lemma col_map_eq (f : Series → Series) (df : DataFrame) (c : string) :
  col (map (λ p, if String.eqb p.1 c then (p.1, f p.2) else p) df) c = f <$> col df c.
Proof.
  induction df as [|[c0 s] df IH]; cbn; [reflexivity |].
  destruct (String.eqb_spec c0 c) as [-> | Hne]; cbn.
  - rewrite String.eqb_refl. reflexivity.
  - destruct (String.eqb_spec c0 c); [done | exact IH].
Qed.

Lemma col_map_values (f : string * Series → Series) (a : DataFrame) (c : string) :
  col (map (λ p, (p.1, f p)) a) c = (λ s, f (c, s)) <$> col a c.
Proof.
  induction a as [|[c' s'] a IH]; cbn; [reflexivity |].
  destruct (String.eqb_spec c' c) as [-> | _]; [reflexivity | exact IH].
Qed.

Lemma col_setitem_ne (df : DataFrame) (c' c : string) (s : Series) :
  c ≠ c' → col (setitem df c' s) c = col df c.
Proof.
  intros Hne. unfold setitem. destruct (col df c') as [s' |].
  - apply (col_map_ne (λ _, s)). exact Hne.
  - rewrite col_app. destruct (col df c); [reflexivity |]. cbn.
    destruct (String.eqb_spec c' c) as [<- | _]; done.
Qed.

Lemma col_setitem_eq (df : DataFrame) (c : string) (s : Series) :
  col (setitem df c s) c = Some s.
Proof.
  unfold setitem. destruct (col df c) as [s' |] eqn:Hc.
  - rewrite (col_map_eq (λ _, s)), Hc. reflexivity.
  - rewrite col_app, Hc. cbn. rewrite String.eqb_refl. reflexivity.
Qed.

Lemma col_setitem_scalar_ne (df : DataFrame) (c' c : string) (v : cell) :
  c ≠ c' → col (setitem_scalar df c' v) c = col df c.
Proof.
  intros Hne. unfold setitem_scalar. destruct (col df c') as [s' |].
  - apply (col_map_ne (map (λ _, v))). exact Hne.
  - rewrite col_app. destruct (col df c); [reflexivity |]. cbn.
    destruct (String.eqb_spec c' c) as [<- | _]; done.
Qed.

Lemma col_setitem_scalar_eq (df : DataFrame) (c : string) (v : cell) (s : Series) :
  col df c = Some s → col (setitem_scalar df c v) c = Some (map (λ _, v) s).
Proof.
  intros Hc. unfold setitem_scalar. rewrite Hc.
  rewrite (col_map_eq (map (λ _, v))). rewrite Hc. reflexivity.
Qed.

Lemma concat_nil_l (b : DataFrame) : concat [] b = Ok b.
Proof. reflexivity. Qed.

Lemma col_concat_outer (a b : DataFrame) (c : string) (s t : Series) :
  col a c = Some s → col b c = Some t → col (concat_outer a b) c = Some (s ++ t).
Proof.
  intros Ha Hb. unfold concat_outer. rewrite col_app.
  rewrite (col_map_values
             (λ p, p.2 ++ default (replicate (nrows b) (Num nan)) (col b p.1))).
  rewrite Ha. cbn. rewrite Hb. reflexivity.
Qed.

Lemma col_zip_with_app (a b : DataFrame) (c : string) (s t : Series) :
  columns a = columns b → col a c = Some s → col b c = Some t →
  col (zip_with (λ p q, (p.1, (p.2 ++ q.2)%list)) a b) c = Some (s ++ t).
Proof.
  revert b. induction a as [|[c1 s1] a IH]; intros [|[c2 s2] b] Hcols Ha Hb;
    try done.
  cbn in Hcols. injection Hcols as -> Hcols. cbn in Ha, Hb |- *.
  destruct (String.eqb c2 c).
  - injection Ha as <-. by injection Hb as <-.
  - by apply IH.
Qed.

(** Whenever the concatenation returns, a column that both frames have is
    the one of the first frame followed by the one of the second. *)
Lemma col_concat (a b ab : DataFrame) (c : string) (s t : Series) :
  concat a b = Ok ab →
  col a c = Some s → col b c = Some t → col ab c = Some (s ++ t).
Proof.
  intros Hcat Ha Hb. unfold concat in Hcat.
  destruct a as [|p a]; [done |]. destruct b as [|q b]; [done |].
  case_bool_decide as Hcols.
  - injection Hcat as <-. by apply (col_zip_with_app (p :: a) (q :: b)).
  - case_bool_decide; [| done]. injection Hcat as <-.
    by apply (col_concat_outer (p :: a) (q :: b)).
Qed.

(** *** Frames without a repeated label *)

Lemma not_in_columns (df : DataFrame) (c : string) :
  c ∉ columns df ↔ col df c = None.
Proof.
  unfold columns. induction df as [|[c' s] df IH]; cbn.
  - split; [done | intros _; apply not_elem_of_nil].
  - rewrite not_elem_of_cons, IH. destruct (String.eqb c' c) eqn:Heq.
    + apply String.eqb_eq in Heq as ->. split; [by intros [? _] | done].
    + apply String.eqb_neq in Heq. split; [by intros [_ ?] | done].
Qed.

Lemma columns_map_values (f : string * Series → Series) (df : DataFrame) :
  columns (map (λ p, (p.1, f p)) df) = columns df.
Proof.
  unfold columns. induction df as [|[c s] df IH]; cbn; [reflexivity |].
  by rewrite IH.
Qed.

Lemma columns_take_group (k : cell) (ids : Series) (df : DataFrame) :
  columns (take_group k ids df) = columns df.
Proof. apply (columns_map_values (λ p, select k ids p.2)). Qed.

Lemma columns_overwrite (c : string) (f : Series → Series) (df : DataFrame) :
  columns (map (λ p, if String.eqb p.1 c then (p.1, f p.2) else p) df) = columns df.
Proof.
  unfold columns. induction df as [|[c' s] df IH]; cbn; [reflexivity |].
  rewrite IH. by destruct (String.eqb c' c).
Qed.

Lemma NoDup_snoc_column (df : DataFrame) (c : string) (s : Series) :
  NoDup (columns df) → col df c = None → NoDup (columns (df ++ [(c, s)])).
Proof.
  intros Hnd Hc. unfold columns in *. rewrite fmap_app. cbn.
  apply NoDup_app. split; [exact Hnd |]. split; [| apply NoDup_singleton].
  intros x Hx Hin. apply list_elem_of_singleton in Hin as ->.
  by apply not_in_columns in Hc.
Qed.

Lemma NoDup_setitem (df : DataFrame) (c : string) (s : Series) :
  NoDup (columns df) → NoDup (columns (setitem df c s)).
Proof.
  intros Hnd. unfold setitem. destruct (col df c) eqn:Hc.
  - by rewrite (columns_overwrite c (λ _, s)).
  - by apply NoDup_snoc_column.
Qed.

Lemma NoDup_setitem_scalar (df : DataFrame) (c : string) (v : cell) :
  NoDup (columns df) → NoDup (columns (setitem_scalar df c v)).
Proof.
  intros Hnd. unfold setitem_scalar. destruct (col df c) eqn:Hc.
  - by rewrite (columns_overwrite c (map (λ _, v))).
  - by apply NoDup_snoc_column.
Qed.

Lemma NoDup_rename (df : DataFrame) (old new : string) :
  NoDup (columns df) → col df new = None → NoDup (columns (rename df old new)).
Proof.
  intros Hnd Hnew. apply not_in_columns in Hnew.
  assert (Hcols : columns (rename df old new)
                  = (λ c, if String.eqb c old then new else c) <$> columns df).
  { clear. unfold rename, columns.
    induction df as [|[c s] df IH]; cbn; [reflexivity |]. by rewrite <- IH. }
  rewrite Hcols. apply NoDup_fmap_2_strong; [| exact Hnd].
  intros x y Hx Hy. destruct (String.eqb x old) eqn:Hxo, (String.eqb y old) eqn:Hyo.
  - apply String.eqb_eq in Hxo, Hyo. congruence.
  - intros <-. done.
  - intros ->. done.
  - done.
Qed.

Lemma columns_zip_with_app (a b : DataFrame) :
  columns a = columns b →
  columns (zip_with (λ p q, (p.1, (p.2 ++ q.2)%list)) a b) = columns a.
Proof.
  unfold columns. revert b.
  induction a as [|[c1 s1] a IH]; intros [|[c2 s2] b] Hcols; try done.
  cbn in Hcols |- *. injection Hcols as -> Hcols. f_equal. by apply IH.
Qed.

Lemma columns_concat_outer (a b : DataFrame) :
  columns (concat_outer a b) = columns a ++ filter (λ c, c ∉ columns a) (columns b).
Proof.
  unfold concat_outer.
  assert (Happ : ∀ x y : DataFrame, columns (x ++ y) = columns x ++ columns y).
  { intros x y. unfold columns. apply fmap_app. }
  rewrite Happ.
  rewrite (columns_map_values
             (λ p, p.2 ++ default (replicate (nrows b) (Num nan)) (col b p.1))).
  rewrite (columns_map_values (λ p, replicate (nrows a) (Num nan) ++ p.2)).
  f_equal. generalize (columns a). intros l. unfold columns.
  induction b as [|[c s] b IH]; cbn; [reflexivity |].
  destruct (decide (c ∉ l)); cbn; [f_equal |]; exact IH.
Qed.

(** The concatenation of two frames without a repeated label returns, and
    has no repeated label. *)
Lemma concat_NoDup (a b : DataFrame) :
  NoDup (columns a) → NoDup (columns b) →
  ∃ ab, concat a b = Ok ab ∧ NoDup (columns ab).
Proof.
  intros Ha Hb. unfold concat.
  destruct a as [|p a]; [eauto |]. destruct b as [|q b]; [eauto |].
  case_bool_decide as Hcols.
  - eexists. split; [reflexivity |].
    by rewrite (columns_zip_with_app (p :: a) (q :: b)).
  - rewrite bool_decide_eq_true_2 by done.
    eexists. split; [reflexivity |].
    rewrite (columns_concat_outer (p :: a) (q :: b)).
    apply NoDup_app. split; [exact Ha |]. split.
    + intros x Hx Hin. apply list_elem_of_filter in Hin as [Hin _]. done.
    + by apply NoDup_filter.
Qed.

Lemma col_take_group (k : cell) (ids : Series) (df : DataFrame) (c : string) :
  col (take_group k ids df) c = select k ids <$> col df c.
Proof.
  induction df as [|[c' s] df IH]; cbn; [reflexivity |].
  destruct (String.eqb c' c); [reflexivity | exact IH].
Qed.

Lemma count_label_0 (df : DataFrame) (c : string) :
  count_label df c = 0%nat ↔ col df c = None.
Proof.
  induction df as [|[c' s] df IH]; cbn; [done |].
  destruct (String.eqb c' c); [split; [lia | discriminate] | exact IH].
Qed.

Lemma count_label_app (a b : DataFrame) (c : string) :
  count_label (a ++ b) c = (count_label a c + count_label b c)%nat.
Proof.
  induction a as [|[c' s] a IH]; cbn; [reflexivity |]. rewrite IH. lia.
Qed.

Lemma count_label_map (f : Series → Series) (df : DataFrame) (c' c : string) :
  count_label (map (λ p, if String.eqb p.1 c' then (p.1, f p.2) else p) df) c
  = count_label df c.
Proof.
  induction df as [|[c0 s] df IH]; cbn; [reflexivity |].
  rewrite IH. by destruct (String.eqb c0 c').
Qed.

Lemma count_label_rename_ne (df : DataFrame) (old new c : string) :
  c ≠ old → c ≠ new → count_label (rename df old new) c = count_label df c.
Proof.
  intros Hold Hnew. unfold rename.
  induction df as [|[c' s] df IH]; cbn; [reflexivity |].
  rewrite IH. destruct (String.eqb_spec c' old) as [-> | _]; [| reflexivity].
  destruct (String.eqb_spec new c) as [<- | _]; [done |].
  by destruct (String.eqb_spec old c) as [<- | _].
Qed.

Lemma count_label_rename_new (df : DataFrame) (old new : string) :
  count_label df new = 0%nat →
  count_label (rename df old new) new = count_label df old.
Proof.
  unfold rename. induction df as [|[c' s] df IH]; cbn; [reflexivity |].
  destruct (String.eqb_spec c' new) as [-> | Hne]; [lia |].
  intros Hz. rewrite (IH Hz).
  destruct (String.eqb_spec c' old) as [-> | _].
  - rewrite String.eqb_refl. reflexivity.
  - by destruct (String.eqb_spec c' new).
Qed.

Lemma count_label_setitem_ne (df : DataFrame) (c' c : string) (s : Series) :
  c ≠ c' → count_label (setitem df c' s) c = count_label df c.
Proof.
  intros Hne. unfold setitem. destruct (col df c').
  - apply (count_label_map (λ _, s)).
  - rewrite count_label_app. cbn.
    destruct (String.eqb_spec c' c) as [<- | _]; [done | lia].
Qed.

Lemma count_label_setitem_scalar_ne (df : DataFrame) (c' c : string) (v : cell) :
  c ≠ c' → count_label (setitem_scalar df c' v) c = count_label df c.
Proof.
  intros Hne. unfold setitem_scalar. destruct (col df c').
  - apply (count_label_map (map (λ _, v))).
  - rewrite count_label_app. cbn.
    destruct (String.eqb_spec c' c) as [<- | _]; [done | lia].
Qed.

Lemma count_label_take_group (k : cell) (ids : Series) (df : DataFrame)
    (c : string) :
  count_label (take_group k ids df) c = count_label df c.
Proof.
  unfold take_group. induction df as [|[c' s] df IH]; cbn; [reflexivity |].
  by rewrite IH.
Qed.

Lemma getitem_col (df : DataFrame) (c : string) (s : Series) :
  getitem df c = Ok s → col df c = Some s.
Proof.
  unfold getitem. destruct (col df c) as [s' |]; [| discriminate].
  destruct (count_label df c =? 1)%nat; [| discriminate]. by intros [= ->].
Qed.

Lemma getitem_Ok (df : DataFrame) (c : string) (s : Series) :
  col df c = Some s → count_label df c = 1%nat → getitem df c = Ok s.
Proof.
  intros Hc Hn. unfold getitem. rewrite Hc, Hn. reflexivity.
Qed.

Lemma to_float64_Num (s : Series) (xs : list float64) :
  to_float64 s = Ok xs → s = Num <$> xs.
Proof.
  revert xs. induction s as [|x s IH]; intros xs; cbn.
  - by intros [= <-].
  - destruct x as [f | t]; cbn; [| discriminate].
    destruct (to_float64 s) as [xs' |] eqn:Hs; cbn in *.
    + unfold to_float64 in Hs. rewrite Hs. cbn. intros [= <-]. cbn.
      f_equal. by apply IH.
    + unfold to_float64 in Hs. rewrite Hs. discriminate.
Qed.

Lemma to_float64_numeric (s : Series) :
  numeric s → ∃ xs, to_float64 s = Ok xs.
Proof.
  induction 1 as [|c s [x ->] _ [xs IH]]; [by exists [] |].
  exists (x :: xs). unfold to_float64 in *. cbn. rewrite IH. reflexivity.
Qed.

Lemma series_sub_lookup (a b res : Series) :
  series_sub a b = Ok res →
  ∀ j, res !! j =
         match a !! j, b !! j with
         | Some (Num x), Some (Num y) => Some (Num (f64_sub x y))
         | _, _ => None
         end.
Proof.
  unfold series_sub. revert b res.
  induction a as [|x a IH]; intros b res Hsub j.
  - cbn in Hsub. injection Hsub as <-. reflexivity.
  - destruct b as [|y b].
    + cbn in Hsub. injection Hsub as <-.
      destruct j as [|j]; cbn; [by destruct x | by destruct (a !! j) as [[] |]].
    + cbn in Hsub. apply bind_Ok in Hsub as (r & Hr & Hsub).
      apply bind_Ok in Hsub as (res' & Hres' & Hsub).
      injection Hsub as <-.
      destruct j as [|j]; cbn.
      * destruct x, y; cbn in Hr; try discriminate. by injection Hr as <-.
      * by apply IH.
Qed.

Lemma series_sub_numeric (a b : Series) :
  numeric a → numeric b → ∃ res, series_sub a b = Ok res.
Proof.
  intros Ha. revert b. unfold series_sub.
  induction Ha as [|x a [xv ->] _ IH]; intros b Hb; [by exists [] |].
  destruct Hb as [|y b [yv ->] Hb]; [by exists [] |].
  destruct (IH b Hb) as [res Hres]. eexists. cbn. cbn in Hres.
  rewrite Hres. reflexivity.
Qed.

Lemma Forall_select (P : cell → Prop) (k : cell) (ids : Series) (s : Series) :
  Forall P s → Forall P (select k ids s).
Proof.
  intros Hs. revert ids. induction Hs as [|x s Hx _ IH]; intros [|i ids]; cbn;
    try constructor.
  destruct (key_eqb i k); [constructor; [exact Hx | apply IH] | apply IH].
Qed.

Lemma numeric_select (k : cell) (ids : Series) (s : Series) :
  numeric s → numeric (select k ids s).
Proof. apply Forall_select. Qed.

Lemma select_id_const (k : string) (ids : list string) :
  (λ _, Txt k) <$> select_id k ids (Txt <$> ids) = select_id k ids (Txt <$> ids).
Proof.
  induction ids as [|i ids IH]; cbn; [reflexivity |].
  destruct (String.eqb_spec i k) as [-> | _]; cbn; [f_equal |]; exact IH.
Qed.

Lemma has_label_take_group (k : cell) (ids : Series) (df : DataFrame) :
  has_label df → has_label (take_group k ids df).
Proof.
  intros (Hn & s & Hs & Hnum). split; [by rewrite count_label_take_group |].
  exists (select k ids s). split; [by rewrite col_take_group, Hs |].
  by apply numeric_select.
Qed.

Lemma has_forecast_take_group (k : cell) (ids : Series) (df : DataFrame)
    (m : nat) :
  has_forecast df m → has_forecast (take_group k ids df) m.
Proof.
  intros (Hn & Hz & s & Hs & Hnum).
  split; [by rewrite count_label_take_group |].
  split; [by rewrite count_label_take_group |].
  exists (select k ids s). split; [by rewrite col_take_group, Hs |].
  by apply numeric_select.
Qed.

(** ** Keys of the groups *)

(** *** The order of floats *)

Lemma compare_cont_swap (m m' : positive) :
  Pos.compare_cont Eq m' m = CompOpp (Pos.compare_cont Eq m m').
Proof. rewrite Pos.compare_cont_antisym. reflexivity. Qed.

Lemma SFcompare_Gt_Lt (x y : float64) :
  SFcompare x y = Some Gt → SFcompare y x = Some Lt.
Proof.
  destruct x as [[] | [] | | [] m e], y as [[] | [] | | [] m' e']; cbn;
    try discriminate; try reflexivity;
    rewrite (Z.compare_antisym e e'), (compare_cont_swap m m');
    destruct (e ?= e'); cbn; try discriminate; try reflexivity;
    destruct (Pos.compare_cont Eq m m'); cbn; try discriminate; reflexivity.
Qed.

Lemma compare_cont_Eq (m m' : positive) : Pos.compare_cont Eq m m' = Eq → m = m'.
Proof. apply Pos.compare_eq. Qed.

(** Floats that compare equal are two zeros, or the same float. *)
Lemma SFcompare_Eq (x y : float64) :
  SFcompare x y = Some Eq →
  x = y ∨ ∃ s s', x = S754_zero s ∧ y = S754_zero s'.
Proof.
  destruct x as [[] | [] | | [] m e], y as [[] | [] | | [] m' e']; cbn;
    try discriminate; eauto.
  - destruct (Z.compare_spec e e') as [-> | |]; try discriminate.
    intros [= Hm]. apply CompOpp_iff in Hm. cbn in Hm.
    apply compare_cont_Eq in Hm as ->. by left.
  - destruct (Z.compare_spec e e') as [-> | |]; try discriminate.
    intros [= Hm]. apply compare_cont_Eq in Hm as ->. by left.
Qed.

Lemma SFcompare_zero_l (s s' : bool) (z : float64) :
  SFcompare (S754_zero s) z = SFcompare (S754_zero s') z.
Proof. reflexivity. Qed.

Lemma SFcompare_zero_r (s s' : bool) (z : float64) :
  SFcompare z (S754_zero s) = SFcompare z (S754_zero s').
Proof. by destruct z. Qed.

Lemma SFcompare_Eq_l (x y z : float64) :
  SFcompare x y = Some Eq → SFcompare x z = SFcompare y z.
Proof.
  intros Heq. apply SFcompare_Eq in Heq as [-> | (s & s' & -> & ->)]; reflexivity.
Qed.

Lemma SFcompare_Eq_r (x y z : float64) :
  SFcompare x y = Some Eq → SFcompare z x = SFcompare z y.
Proof.
  intros Heq. apply SFcompare_Eq in Heq as [-> | (s & s' & -> & ->)];
    [reflexivity | apply SFcompare_zero_r].
Qed.

Lemma SFcompare_refl (x : float64) : x ≠ S754_nan → SFcompare x x = Some Eq.
Proof.
  destruct x as [[] | [] | | [] m e]; cbn; try done; intros _.
  - rewrite Z.compare_refl, Pos.compare_cont_refl. reflexivity.
  - rewrite Z.compare_refl, Pos.compare_cont_refl. reflexivity.
Qed.

Lemma SFcompare_None (x y : float64) :
  SFcompare x y = None → x = S754_nan ∨ y = S754_nan.
Proof. destruct x as [| | |[]], y as [| | |[]]; cbn; try discriminate; auto. Qed.

(** *** The order of the keys *)

Lemma string_compare_refl (s : string) : String.compare s s = Eq.
Proof.
  pose proof (String.compare_antisym s s) as Hanti.
  destruct (String.compare s s); [reflexivity | discriminate | discriminate].
Qed.

Lemma key_compare_Gt_Lt (a b : cell) : key_compare a b = Gt → key_compare b a = Lt.
Proof.
  destruct a as [x | s], b as [y | t]; cbn; try done.
  - destruct (SFcompare x y) as [[] |] eqn:Hcmp; try discriminate. intros _.
    by rewrite (SFcompare_Gt_Lt x y Hcmp).
  - intros Hcmp. by rewrite String.compare_antisym, Hcmp.
Qed.

Lemma key_eqb_not_missing (a b : cell) :
  key_eqb a b = true → is_missing a = false ∧ is_missing b = false.
Proof.
  destruct a as [x | s], b as [y | t]; cbn; try done.
  unfold SFeqb. by destruct x, y.
Qed.

Lemma key_eqb_refl (c : cell) : is_missing c = false → key_eqb c c = true.
Proof.
  destruct c as [x | s]; cbn; [| intros _; apply String.eqb_refl].
  intros Hx. unfold SFeqb. rewrite SFcompare_refl; [reflexivity |].
  by intros ->.
Qed.

Lemma key_compare_Eq (a b : cell) :
  is_missing a = false → is_missing b = false →
  key_compare a b = Eq ↔ key_eqb a b = true.
Proof.
  destruct a as [x | s], b as [y | t]; cbn; try done.
  - intros Hx Hy. unfold SFeqb.
    destruct (SFcompare x y) as [[] |] eqn:Hcmp; cbn; try done.
    apply SFcompare_None in Hcmp as [-> | ->]; discriminate.
  - intros _ _. rewrite String.eqb_eq. split.
    + apply String.compare_eq_iff.
    + intros ->. apply string_compare_refl.
Qed.

(** A key takes the place of an equal one in every comparison. *)
Lemma key_compare_Eq_l (k h x : cell) :
  key_eqb k h = true → key_compare k x = key_compare h x.
Proof.
  destruct k as [a | s], h as [b | t]; cbn; try done.
  - unfold SFeqb. destruct (SFcompare a b) as [[] |] eqn:Hcmp; try done. intros _.
    destruct x as [c | u]; cbn; [| reflexivity].
    by rewrite (SFcompare_Eq_l a b c Hcmp).
  - by intros ->%String.eqb_eq.
Qed.

Lemma key_eqb_Eq_r (c k h : cell) :
  key_eqb k h = true → key_eqb c k = key_eqb c h.
Proof.
  destruct k as [a | s], h as [b | t]; cbn; try done.
  - unfold SFeqb at 1. destruct (SFcompare a b) as [[] |] eqn:Hcmp; try done. intros _.
    destruct c as [x | u]; cbn; [| reflexivity].
    unfold SFeqb. by rewrite (SFcompare_Eq_r a b x Hcmp).
  - by intros ->%String.eqb_eq.
Qed.

(** *** The keys *)

Lemma insert_key_in (k x : cell) (l : list cell) :
  x ∈ insert_key k l → x = k ∨ x ∈ l.
Proof.
  induction l as [|h t IH]; cbn.
  - rewrite list_elem_of_singleton. tauto.
  - destruct (key_compare k h); rewrite !elem_of_cons; tauto.
Qed.

Lemma insert_key_not_missing (k : cell) (l : list cell) :
  is_missing k = false →
  Forall (λ c, is_missing c = false) l →
  Forall (λ c, is_missing c = false) (insert_key k l).
Proof.
  intros Hk Hl. apply Forall_forall. intros x Hx.
  apply insert_key_in in Hx as [-> | Hx]; [exact Hk |].
  rewrite Forall_forall in Hl. by apply Hl.
Qed.

Lemma insert_key_sorted (k : cell) (l : list cell) :
  is_missing k = false →
  Forall (λ c, is_missing c = false) l →
  Sorted (λ a b, key_compare a b = Lt) l →
  Sorted (λ a b, key_compare a b = Lt) (insert_key k l).
Proof.
  intros Hk Hl Hsorted. induction Hsorted as [|h t Hsorted IH Hhd]; cbn.
  - repeat constructor.
  - apply Forall_cons in Hl as [Hh Ht].
    destruct (key_compare k h) eqn:Hcmp.
    + apply key_compare_Eq in Hcmp; [| done | done].
      constructor; [exact Hsorted |].
      destruct Hhd as [|h' t' Hh']; constructor.
      by rewrite (key_compare_Eq_l k h h').
    + constructor; [by constructor | by constructor].
    + constructor; [by apply IH |].
      apply key_compare_Gt_Lt in Hcmp.
      destruct Hhd as [|h' t' Hh']; cbn.
      * by constructor.
      * destruct (key_compare k h'); by constructor.
Qed.

(** An identifier stays covered by a key when another key is inserted. *)
Lemma insert_key_covers (k c : cell) (l : list cell) :
  is_missing k = false →
  Forall (λ c, is_missing c = false) l →
  key_eqb c k = true ∨ (∃ x, x ∈ l ∧ key_eqb c x = true) →
  ∃ x, x ∈ insert_key k l ∧ key_eqb c x = true.
Proof.
  intros Hk Hl. induction l as [|h t IH]; cbn.
  - intros [Hc | (x & Hx & _)]; [| by apply elem_of_nil in Hx].
    exists k. split; [apply list_elem_of_here | exact Hc].
  - apply Forall_cons in Hl as [Hh Ht].
    destruct (key_compare k h) eqn:Hcmp.
    + apply key_compare_Eq in Hcmp; [| done | done].
      intros [Hc | (x & Hx & Hcx)]; [exists k; split; [apply list_elem_of_here | done] |].
      apply elem_of_cons in Hx as [-> | Hx].
      * exists k. split; [apply list_elem_of_here |].
        by rewrite (key_eqb_Eq_r c k h).
      * exists x. split; [by apply list_elem_of_further | done].
    + intros [Hc | (x & Hx & Hcx)].
      * exists k. split; [apply list_elem_of_here | done].
      * exists x. split; [by apply list_elem_of_further | done].
    + intros [Hc | (x & Hx & Hcx)].
      * destruct (IH Ht) as (x & Hx & Hcx); [by left |].
        exists x. split; [by apply list_elem_of_further | done].
      * apply elem_of_cons in Hx as [-> | Hx].
        -- exists h. split; [apply list_elem_of_here | done].
        -- destruct (IH Ht) as (x' & Hx' & Hcx'); [right; eauto |].
           exists x'. split; [by apply list_elem_of_further | done].
Qed.

Lemma group_keys_not_missing (ids : Series) :
  Forall (λ c, is_missing c = false) (group_keys ids).
Proof.
  induction ids as [|i ids IH]; cbn; [constructor |].
  destruct (is_missing i) eqn:Hi; [exact IH | by apply insert_key_not_missing].
Qed.

Lemma group_keys_sorted (ids : Series) :
  Sorted (λ a b, key_compare a b = Lt) (group_keys ids).
Proof.
  induction ids as [|i ids IH]; cbn; [constructor |].
  destruct (is_missing i) eqn:Hi; [exact IH |].
  apply insert_key_sorted; [exact Hi | apply group_keys_not_missing | exact IH].
Qed.

(** Every key is an identifier of the column. *)
Lemma group_keys_in (ids : Series) (k : cell) : k ∈ group_keys ids → k ∈ ids.
Proof.
  induction ids as [|i ids IH]; cbn; [done |].
  destruct (is_missing i).
  - intros Hk. by apply list_elem_of_further, IH.
  - intros Hk. apply insert_key_in in Hk as [-> | Hk];
      [apply list_elem_of_here | by apply list_elem_of_further, IH].
Qed.

(** Every identifier that is not missing is of the group of a key. *)
Lemma group_keys_covers (ids : Series) (c : cell) :
  c ∈ ids → is_missing c = false →
  ∃ k, k ∈ group_keys ids ∧ key_eqb c k = true.
Proof.
  intros Hin Hc. induction ids as [|i ids IH]; [by apply elem_of_nil in Hin |].
  cbn. apply elem_of_cons in Hin as [<- | Hin].
  - rewrite Hc. apply insert_key_covers; [exact Hc | apply group_keys_not_missing |].
    left. by apply key_eqb_refl.
  - destruct (is_missing i) eqn:Hi; [by apply IH |].
    apply insert_key_covers; [exact Hi | apply group_keys_not_missing |].
    right. by apply IH.
Qed.

(** *** Columns of strings *)

Lemma insert_id_elem (k x : string) (l : list string) :
  x ∈ insert_id k l ↔ x = k ∨ x ∈ l.
Proof.
  induction l as [|h t IH]; cbn.
  - rewrite list_elem_of_singleton, elem_of_nil. tauto.
  - destruct (String.compare k h) eqn:Hcmp.
    + apply String.compare_eq_iff in Hcmp as ->.
      rewrite elem_of_cons. tauto.
    + rewrite !elem_of_cons. tauto.
    + rewrite !elem_of_cons, IH. tauto.
Qed.

Lemma insert_id_sorted (k : string) (l : list string) :
  Sorted (λ a b, String.compare a b = Lt) l →
  Sorted (λ a b, String.compare a b = Lt) (insert_id k l).
Proof.
  induction 1 as [|h t Hsorted IH Hhd]; cbn.
  - repeat constructor.
  - destruct (String.compare k h) eqn:Hcmp.
    + by constructor.
    + constructor; [by constructor | by constructor].
    + constructor; [exact IH |].
      assert (Hhk : String.compare h k = Lt).
      { rewrite String.compare_antisym, Hcmp. reflexivity. }
      destruct Hhd as [|h' t' Hh']; cbn.
      * by constructor.
      * destruct (String.compare k h'); by constructor.
Qed.

Lemma group_ids_sorted (ids : list string) :
  Sorted (λ a b, String.compare a b = Lt) (group_ids ids).
Proof.
  induction ids as [|i ids IH]; cbn; [constructor | by apply insert_id_sorted].
Qed.

Lemma group_ids_elem (ids : list string) (k : string) :
  k ∈ group_ids ids ↔ k ∈ ids.
Proof.
  induction ids as [|i ids IH]; cbn; [reflexivity |].
  rewrite insert_id_elem, IH, elem_of_cons. reflexivity.
Qed.

(** On a column of strings [groupby] is [group_ids] and [select_id]. *)
Lemma insert_key_Txt (k : string) (l : list string) :
  insert_key (Txt k) (Txt <$> l) = Txt <$> insert_id k l.
Proof.
  induction l as [|h t IH]; cbn; [reflexivity |].
  destruct (String.compare k h) eqn:Hcmp; cbn.
  - by apply String.compare_eq_iff in Hcmp as ->.
  - reflexivity.
  - cbn in IH. by rewrite IH.
Qed.

Lemma group_keys_Txt (ids : list string) :
  group_keys (Txt <$> ids) = Txt <$> group_ids ids.
Proof.
  induction ids as [|i ids IH]; [reflexivity |].
  change (group_keys (Txt <$> i :: ids))
    with (insert_key (Txt i) (group_keys (Txt <$> ids))).
  rewrite IH. apply insert_key_Txt.
Qed.

Lemma select_Txt (k : string) (ids : list string) (s : Series) :
  select (Txt k) (Txt <$> ids) s = select_id k ids s.
Proof.
  revert s. induction ids as [|i ids IH]; intros [|x s]; cbn; try reflexivity.
  cbn in IH. rewrite IH. reflexivity.
Qed.

Lemma bind_ext_keys {K A} (f f' : K → list A) (keys : list K) :
  (∀ k, f k = f' k) → keys ≫= f = keys ≫= f'.
Proof.
  intros Hf. induction keys as [|k keys IH]; cbn; [reflexivity |].
  rewrite Hf. f_equal. exact IH.
Qed.

(** ** Column labels *)

Lemma pretty_N_go_head (x : N) (acc rest : string) :
  acc ≠ String "_"%char rest → pretty_N_go x acc ≠ String "_"%char rest.
Proof.
  revert acc. induction (N.lt_wf_0 x) as [x _ IH]; intros acc Hacc.
  destruct (decide (x = 0)%N) as [-> | Hx].
  - by rewrite pretty_N_go_0.
  - rewrite pretty_N_go_step by lia. apply IH; [apply N.div_lt; lia |].
    unfold pretty_N_char. repeat case_match; discriminate.
Qed.

(** A printed number does not begin with an underscore. *)
Lemma pretty_nat_head (m : nat) (rest : string) : pretty m ≠ String "_"%char rest.
Proof.
  unfold pretty, pretty_nat, pretty, pretty_N.
  case_decide; [discriminate | by apply pretty_N_go_head].
Qed.

Lemma fmt_inj (prefix : string) (a b : nat) : fmt prefix a = fmt prefix b → a = b.
Proof.
  unfold fmt. intros Heq. apply String.app_inj in Heq. by apply (inj pretty).
Qed.

Lemma fmt_yhat_ne_raw (a b : nat) : fmt "yhat" a ≠ fmt "yhat_raw" b.
Proof.
  unfold fmt. simpl. intros [= Heq]. by apply pretty_nat_head in Heq.
Qed.

(** ** [predict] *)

(** *** One step *)

(** A step leaves alone every column other than the three it writes and
    the identifier. *)
Lemma predict_step_other (i : nat) (k : cell) (df df' : DataFrame) (c : string) :
  Classification_NP.predict_step i k df = Ok df' →
  c ≠ "ID" →
  c ∉ [fmt "yhat" (i + 1); fmt "yhat_raw" (i + 1); fmt "residual" (i + 1)] →
  col df' c = col df c.
Proof.
  intros Hstep Hid Hc.
  apply not_elem_of_cons in Hc as [Hc1 Hc].
  apply not_elem_of_cons in Hc as [Hc2 Hc].
  apply not_elem_of_cons in Hc as [Hc3 _].
  unfold Classification_NP.predict_step in Hstep. cbv zeta in Hstep.
  apply bind_Ok in Hstep as (raw0 & _ & Hstep).
  apply bind_Ok in Hstep as (yhat & _ & Hstep).
  apply bind_Ok in Hstep as (raw & _ & Hstep).
  apply bind_Ok in Hstep as (y & _ & Hstep).
  apply bind_Ok in Hstep as (residual & _ & Hstep).
  injection Hstep as <-.
  rewrite col_setitem_scalar_ne, !col_setitem_ne, col_rename_ne by done.
  reflexivity.
Qed.

Lemma predict_step_count (i : nat) (k : cell) (df df' : DataFrame) (c : string) :
  Classification_NP.predict_step i k df = Ok df' →
  c ≠ "ID" →
  c ∉ [fmt "yhat" (i + 1); fmt "yhat_raw" (i + 1); fmt "residual" (i + 1)] →
  count_label df' c = count_label df c.
Proof.
  intros Hstep Hid Hc.
  apply not_elem_of_cons in Hc as [Hc1 Hc].
  apply not_elem_of_cons in Hc as [Hc2 Hc].
  apply not_elem_of_cons in Hc as [Hc3 _].
  unfold Classification_NP.predict_step in Hstep. cbv zeta in Hstep.
  apply bind_Ok in Hstep as (raw0 & _ & Hstep).
  apply bind_Ok in Hstep as (yhat & _ & Hstep).
  apply bind_Ok in Hstep as (raw & _ & Hstep).
  apply bind_Ok in Hstep as (y & _ & Hstep).
  apply bind_Ok in Hstep as (residual & _ & Hstep).
  injection Hstep as <-.
  rewrite count_label_setitem_scalar_ne, !count_label_setitem_ne,
    count_label_rename_ne by done.
  reflexivity.
Qed.

(** A step overwrites the identifier of every row with the group key. *)
Lemma predict_step_ID (i : nat) (k : cell) (df df' : DataFrame) (s : Series) :
  Classification_NP.predict_step i k df = Ok df' →
  col df "ID" = Some s →
  col df' "ID" = Some ((λ _, k) <$> s).
Proof.
  intros Hstep Hs.
  unfold Classification_NP.predict_step in Hstep. cbv zeta in Hstep.
  apply bind_Ok in Hstep as (raw0 & _ & Hstep).
  apply bind_Ok in Hstep as (yhat & _ & Hstep).
  apply bind_Ok in Hstep as (raw & _ & Hstep).
  apply bind_Ok in Hstep as (y & _ & Hstep).
  apply bind_Ok in Hstep as (residual & _ & Hstep).
  injection Hstep as <-.
  apply col_setitem_scalar_eq.
  rewrite !col_setitem_ne, col_rename_ne by (cbn; discriminate).
  exact Hs.
Qed.

(** The frame of step [i] carries, row by row, the raw forecast of the step
    under [yhat_raw<i+1>], its rounding under [yhat<i+1>], and under
    [residual<i+1>] the raw forecast minus the label. *)
Lemma predict_step_columns (i : nat) (k : cell) (df df' : DataFrame) :
  Classification_NP.predict_step i k df = Ok df' →
  ∃ xs y residual,
    col (rename df (fmt "yhat" (i + 1)) (fmt "yhat_raw" (i + 1)))
        (fmt "yhat_raw" (i + 1)) = Some (Num <$> xs) ∧
    col df "y" = Some y ∧
    col df' (fmt "yhat_raw" (i + 1)) = Some (Num <$> xs) ∧
    col df' (fmt "yhat" (i + 1)) = Some (Num ∘ rint <$> xs) ∧
    col df' "y" = Some y ∧
    col df' (fmt "residual" (i + 1)) = Some residual ∧
    ∀ j, residual !! j =
           match xs !! j, y !! j with
           | Some x, Some (Num yv) => Some (Num (f64_sub x yv))
           | _, _ => None
           end.
Proof.
  intros Hstep.
  unfold Classification_NP.predict_step in Hstep. cbv zeta in Hstep.
  apply bind_Ok in Hstep as (raw0 & Hraw0 & Hstep).
  apply bind_Ok in Hstep as (xs & Hxs & Hstep).
  apply bind_Ok in Hstep as (raw & Hraw & Hstep).
  apply bind_Ok in Hstep as (y & Hy & Hstep).
  apply bind_Ok in Hstep as (residual & Hres & Hstep).
  injection Hstep as <-.
  apply getitem_col in Hraw0, Hraw, Hy. apply to_float64_Num in Hxs as ->.
  pose proof (fmt_yhat_ne_raw (i + 1) (i + 1)) as Hne.
  rewrite col_setitem_ne in Hraw by done.
  rewrite Hraw0 in Hraw. injection Hraw as <-.
  rewrite col_setitem_ne, col_rename_ne in Hy by (cbn; discriminate).
  exists xs, y, residual.
  split; [exact Hraw0 |]. split; [exact Hy |].
  split; [| split; [| split; [| split]]].
  - rewrite col_setitem_scalar_ne, !col_setitem_ne by (done || (cbn; discriminate)).
    exact Hraw0.
  - rewrite col_setitem_scalar_ne, col_setitem_ne by (cbn; discriminate).
    apply col_setitem_eq.
  - rewrite col_setitem_scalar_ne, !col_setitem_ne, col_rename_ne
      by (cbn; discriminate).
    exact Hy.
  - rewrite col_setitem_scalar_ne by (cbn; discriminate). apply col_setitem_eq.
  - intros j. rewrite (series_sub_lookup _ _ _ Hres j).
    unfold Series. rewrite list_lookup_fmap. by destruct (xs !! j).
Qed.

(** On a frame that has the forecast of step [i + 1] and the label, the
    step returns. *)
Lemma predict_step_total (i : nat) (k : cell) (df : DataFrame) :
  has_forecast df (i + 1) → has_label df →
  ∃ df', Classification_NP.predict_step i k df = Ok df'.
Proof.
  intros (Hn & Hz & s & Hs & Hnum) (Hyn & y & Hy & Hynum).
  pose proof (fmt_yhat_ne_raw (i + 1) (i + 1)) as Hne.
  destruct (to_float64_numeric s Hnum) as [xs Hxs].
  destruct (series_sub_numeric s y Hnum Hynum) as [res Hres].
  assert (Hraw0 : getitem (rename df (fmt "yhat" (i + 1)) (fmt "yhat_raw" (i + 1)))
                    (fmt "yhat_raw" (i + 1)) = Ok s).
  { apply getitem_Ok.
    - rewrite col_rename_new; [exact Hs | by apply count_label_0].
    - by rewrite count_label_rename_new. }
  assert (Hraw : getitem
                   (setitem (rename df (fmt "yhat" (i + 1)) (fmt "yhat_raw" (i + 1)))
                      (fmt "yhat" (i + 1)) (Num ∘ rint <$> xs))
                   (fmt "yhat_raw" (i + 1)) = Ok s).
  { apply getitem_col in Hraw0 as Hcol. apply getitem_Ok.
    - by rewrite col_setitem_ne.
    - rewrite count_label_setitem_ne by done.
      by rewrite count_label_rename_new. }
  assert (Hgy : getitem
                  (setitem (rename df (fmt "yhat" (i + 1)) (fmt "yhat_raw" (i + 1)))
                     (fmt "yhat" (i + 1)) (Num ∘ rint <$> xs))
                  "y" = Ok y).
  { apply getitem_Ok.
    - by rewrite col_setitem_ne, col_rename_ne by (simpl; discriminate).
    - by rewrite count_label_setitem_ne, count_label_rename_ne
        by (simpl; discriminate). }
  eexists. unfold Classification_NP.predict_step. cbv zeta.
  rewrite Hraw0. change (Ok s ≫= ?f) with (f s). cbv beta.
  rewrite Hxs. change (Ok xs ≫= ?f) with (f xs). cbv beta.
  rewrite Hraw. change (Ok s ≫= ?f) with (f s). cbv beta.
  rewrite Hgy. change (Ok y ≫= ?f) with (f y). cbv beta.
  rewrite Hres. reflexivity.
Qed.

Lemma predict_step_keeps_label (i : nat) (k : cell) (df df' : DataFrame) :
  Classification_NP.predict_step i k df = Ok df' → has_label df → has_label df'.
Proof.
  intros Hstep (Hn & s & Hs & Hnum).
  assert (Hy : "y" ∉ [fmt "yhat" (i + 1); fmt "yhat_raw" (i + 1);
                      fmt "residual" (i + 1)]).
  { rewrite !not_elem_of_cons. repeat split; try (simpl; discriminate).
    apply not_elem_of_nil. }
  split.
  - by rewrite (predict_step_count i k df df' "y" Hstep).
  - exists s. by rewrite (predict_step_other i k df df' "y" Hstep).
Qed.

Lemma predict_step_keeps_forecast (i : nat) (k : cell) (df df' : DataFrame)
    (m : nat) :
  Classification_NP.predict_step i k df = Ok df' →
  m ≠ (i + 1)%nat → has_forecast df m → has_forecast df' m.
Proof.
  intros Hstep Hm (Hn & Hz & s & Hs & Hnum).
  assert (Hyhat : fmt "yhat" m ∉ [fmt "yhat" (i + 1); fmt "yhat_raw" (i + 1);
                                  fmt "residual" (i + 1)]).
  { rewrite !not_elem_of_cons. repeat split.
    - intros Heq. by apply fmt_inj in Heq.
    - apply fmt_yhat_ne_raw.
    - simpl. discriminate.
    - apply not_elem_of_nil. }
  assert (Hraw : fmt "yhat_raw" m ∉ [fmt "yhat" (i + 1); fmt "yhat_raw" (i + 1);
                                     fmt "residual" (i + 1)]).
  { rewrite !not_elem_of_cons. repeat split.
    - intros Heq. symmetry in Heq. by apply fmt_yhat_ne_raw in Heq.
    - intros Heq. by apply fmt_inj in Heq.
    - simpl. discriminate.
    - apply not_elem_of_nil. }
  split; [| split].
  - rewrite (predict_step_count i k df df' _ Hstep); [exact Hn | | exact Hyhat].
    simpl. discriminate.
  - rewrite (predict_step_count i k df df' _ Hstep); [exact Hz | | exact Hraw].
    simpl. discriminate.
  - exists s. rewrite (predict_step_other i k df df' _ Hstep); [done | | exact Hyhat].
    simpl. discriminate.
Qed.

(** A step on a frame without a repeated label leaves none repeated. *)
Lemma predict_step_NoDup (i : nat) (k : cell) (df df' : DataFrame) :
  Classification_NP.predict_step i k df = Ok df' →
  col df (fmt "yhat_raw" (i + 1)) = None →
  NoDup (columns df) → NoDup (columns df').
Proof.
  intros Hstep Hnone Hnd.
  unfold Classification_NP.predict_step in Hstep. cbv zeta in Hstep.
  apply bind_Ok in Hstep as (raw0 & _ & Hstep).
  apply bind_Ok in Hstep as (yhat & _ & Hstep).
  apply bind_Ok in Hstep as (raw & _ & Hstep).
  apply bind_Ok in Hstep as (y & _ & Hstep).
  apply bind_Ok in Hstep as (residual & _ & Hstep).
  injection Hstep as <-.
  by apply NoDup_setitem_scalar, NoDup_setitem, NoDup_setitem, NoDup_rename.
Qed.

(** *** The loops *)

Section Loops.
Variables (c : string) (g : cell → Series → Series).
Hypothesis g_idem : ∀ k s, g k (g k s) = g k s.

(** Through the inner loop, for a column that every step maps by [g k]:
    [df_pred] gains that column of the group once per step. *)
Lemma predict_steps_col (steps : list nat) (k : cell) :
  (∀ i df df' s, i ∈ steps →
     Classification_NP.predict_step i k df = Ok df' →
     col df c = Some s → col df' c = Some (g k s)) →
  ∀ (df_pred df_i out : DataFrame) (s : Series),
    Classification_NP.predict_steps steps k df_pred df_i = Ok out →
    col df_i c = Some s →
    df_pred = [] ∨ is_Some (col df_pred c) →
    default [] (col out c)
      = default [] (col df_pred c) ++ mjoin (replicate (length steps) (g k s)) ∧
    (out = [] ∨ is_Some (col out c)).
Proof.
  induction steps as [|i steps IH]; intros Hstep df_pred df_i out s Hrun Hs Hinv.
  - cbn in Hrun. injection Hrun as <-. cbn. rewrite app_nil_r. auto.
  - cbn in Hrun. apply bind_Ok in Hrun as (df_i' & Hi & Hrun).
    apply bind_Ok in Hrun as (df_pred' & Hcat' & Hrun).
    pose proof (Hstep i df_i df_i' s (list_elem_of_here _ _) Hi Hs) as Hs'.
    assert (Hcat : col df_pred' c
                   = Some (default [] (col df_pred c) ++ g k s)).
    { destruct Hinv as [-> | [x Hx]].
      - rewrite concat_nil_l in Hcat'. injection Hcat' as <-. exact Hs'.
      - rewrite Hx. cbn. by apply (col_concat df_pred df_i'). }
    destruct (IH (λ j df df' s' Hj, Hstep j df df' s' (list_elem_of_further _ _ _ Hj))
                 _ _ _ _ Hrun Hs') as [Hout Hinv'].
    { right. rewrite Hcat. eauto. }
    split; [| exact Hinv'].
    rewrite Hout, Hcat, g_idem. cbn. rewrite <- app_assoc. reflexivity.
Qed.

(** Through the outer loop: the groups in their order, each contributing
    its rows of the column once per step. *)
Lemma predict_groups_col (n : Z) (ids : Series) (df : DataFrame) (s : Series) :
  (∀ i k df df' s, (i < Z.to_nat n)%nat →
     Classification_NP.predict_step i k df = Ok df' →
     col df c = Some s → col df' c = Some (g k s)) →
  col df c = Some s →
  ∀ (keys : list cell) (df_pred out : DataFrame),
    Classification_NP.predict_groups n ((λ k, (k, take_group k ids df)) <$> keys) df_pred
      = Ok out →
    df_pred = [] ∨ is_Some (col df_pred c) →
    default [] (col out c)
      = default [] (col df_pred c) ++
        (keys ≫= λ k, mjoin (replicate (Z.to_nat n) (g k (select k ids s)))) ∧
    (out = [] ∨ is_Some (col out c)).
Proof.
  intros Hstep Hs keys.
  induction keys as [|k keys IH]; intros df_pred out Hrun Hinv.
  - cbn in Hrun. injection Hrun as <-. cbn. rewrite app_nil_r. auto.
  - cbn in Hrun. apply bind_Ok in Hrun as (df_pred' & Hk & Hrun).
    assert (Hstep' : ∀ i d d' s', i ∈ range n →
              Classification_NP.predict_step i k d = Ok d' →
              col d c = Some s' → col d' c = Some (g k s')).
    { intros i d d' s' Hi. apply Hstep. unfold range in Hi.
      apply elem_of_seq in Hi. lia. }
    assert (Hcol : col (take_group k ids df) c = Some (select k ids s)).
    { rewrite col_take_group, Hs. reflexivity. }
    destruct (predict_steps_col (range n) k Hstep' _ _ _ _ Hk Hcol Hinv)
      as [Hout' Hinv'].
    destruct (IH _ _ Hrun Hinv') as [Hout Hinv''].
    split; [| exact Hinv''].
    rewrite Hout, Hout'. unfold range. rewrite length_seq. cbn.
    rewrite <- app_assoc. reflexivity.
Qed.

End Loops.

(** The columns of the concatenation, for a frame [df] with the
    identifiers [ids]: over the keys in ascending order, the rows of each
    group as they follow each other in [df], once per step.  In the
    identifier column every row holds the key of its group. *)
Lemma classify_columns (n : Z) (df out : DataFrame) :
  Classification_NP.classify n df = Ok out →
  ∃ ids,
    col df "ID" = Some ids ∧
    default [] (col out "ID")
      = (group_keys ids ≫= λ k,
           mjoin (replicate (Z.to_nat n) ((λ _, k) <$> select k ids ids))) ∧
    ∀ c s,
      col df c = Some s →
      c ≠ "ID" →
      (∀ i, (1 ≤ i ≤ Z.to_nat n)%nat →
            c ∉ [fmt "yhat" i; fmt "yhat_raw" i; fmt "residual" i]) →
      default [] (col out c)
        = group_keys ids ≫= λ k, mjoin (replicate (Z.to_nat n) (select k ids s)).
Proof.
  intros Hrun. unfold Classification_NP.classify, groupby in Hrun.
  apply bind_Ok in Hrun as (groups & Hgroups & Hrun).
  apply bind_Ok in Hgroups as (ids & Hids & Hgroups).
  injection Hgroups as <-.
  apply getitem_col in Hids.
  exists ids. split; [exact Hids |]. split.
  - destruct (predict_groups_col "ID" (λ k s, (λ _, k) <$> s)) with
      (n := n) (ids := ids) (df := df) (s := ids)
      (keys := group_keys ids) (df_pred := @nil (string * Series)) (out := out)
      as [Hout _]; try done.
    + intros k s. rewrite <- list_fmap_compose. reflexivity.
    + intros i k d d' s _. apply predict_step_ID.
    + by left.
  - intros c s Hs Hne Hother.
    destruct (predict_groups_col c (λ _ s, s)) with
      (n := n) (ids := ids) (df := df) (s := s)
      (keys := group_keys ids) (df_pred := @nil (string * Series)) (out := out)
      as [Hout _]; try done.
    + intros i k d d' s' Hi Hstep Hs'. rewrite <- Hs'.
      apply (predict_step_other i k); [exact Hstep | exact Hne |].
      apply Hother. lia.
    + by left.
Qed.

Lemma untouched_ID (i : nat) :
  "ID" ∉ [fmt "yhat" i; fmt "yhat_raw" i; fmt "residual" i].
Proof.
  rewrite !not_elem_of_cons. repeat split; try (simpl; discriminate).
  apply not_elem_of_nil.
Qed.

(** The same for a frame whose identifiers are the strings [ids]: a row
    holds the identifier it had. *)
Lemma classify_columns_ids (n : Z) (df out : DataFrame) (ids : list string) :
  Classification_NP.classify n df = Ok out →
  col df "ID" = Some (Txt <$> ids) →
  ∀ c s,
    col df c = Some s →
    (∀ i, (1 ≤ i ≤ Z.to_nat n)%nat →
          c ∉ [fmt "yhat" i; fmt "yhat_raw" i; fmt "residual" i]) →
    default [] (col out c)
      = group_ids ids ≫= λ k, mjoin (replicate (Z.to_nat n) (select_id k ids s)).
Proof.
  intros Hrun Hids c s Hs Hother.
  destruct (classify_columns n df out Hrun) as (ids' & Hids' & HID & Hcols).
  rewrite Hids in Hids'. injection Hids' as <-.
  rewrite group_keys_Txt in HID, Hcols.
  destruct (decide (c = "ID")) as [-> | Hne].
  - rewrite Hids in Hs. injection Hs as <-.
    rewrite HID. unfold Series. rewrite list_fmap_bind.
    apply bind_ext_keys. intros k. cbn.
    by rewrite select_Txt, select_id_const.
  - rewrite (Hcols c s Hs Hne Hother). unfold Series. rewrite list_fmap_bind.
    apply bind_ext_keys. intros k. cbn. by rewrite select_Txt.
Qed.

(** On frames without a repeated label, the inner loop returns when the
    frame of the group has the forecasts of its steps and the label. *)
Lemma predict_steps_total (steps : list nat) (k : cell) :
  NoDup steps →
  ∀ df_pred df_i,
    (∀ i, i ∈ steps → has_forecast df_i (i + 1)) → has_label df_i →
    NoDup (columns df_pred) → NoDup (columns df_i) →
    ∃ out, Classification_NP.predict_steps steps k df_pred df_i = Ok out ∧
           NoDup (columns out).
Proof.
  induction 1 as [|i steps Hi _ IH]; intros df_pred df_i Hf Hl Hp Hd.
  { exists df_pred. by split. }
  destruct (predict_step_total i k df_i) as [df_i' Hstep];
    [apply Hf, list_elem_of_here | exact Hl |].
  assert (Hd' : NoDup (columns df_i')).
  { apply (predict_step_NoDup i k df_i); [exact Hstep | | exact Hd].
    destruct (Hf i (list_elem_of_here _ _)) as (_ & Hz & _).
    by apply count_label_0. }
  destruct (concat_NoDup df_pred df_i' Hp Hd') as (df_pred' & Hcat & Hp').
  destruct (IH df_pred' df_i') as (out & Hout & Hnd).
  - intros j Hj. apply (predict_step_keeps_forecast i k df_i); [exact Hstep | |].
    + intros Heq. assert (j = i) as -> by lia. done.
    + by apply Hf, list_elem_of_further.
  - by apply (predict_step_keeps_label i k df_i).
  - exact Hp'.
  - exact Hd'.
  - exists out. split; [| exact Hnd]. cbn. rewrite Hstep.
    change (Ok ?a ≫= ?f) with (f a). cbv beta. rewrite Hcat. exact Hout.
Qed.

Lemma predict_groups_total (n : Z) (groups : list (cell * DataFrame)) :
  Forall (λ g, NoDup (columns g.2) ∧ has_label g.2 ∧
               ∀ m, (1 ≤ m ≤ Z.to_nat n)%nat → has_forecast g.2 m) groups →
  ∀ df_pred, NoDup (columns df_pred) →
    ∃ out, Classification_NP.predict_groups n groups df_pred = Ok out.
Proof.
  induction 1 as [|[k g] groups (Hd & Hl & Hf) _ IH]; intros df_pred Hp;
    [by eexists |].
  destruct (predict_steps_total (range n) k) with (df_pred := df_pred) (df_i := g)
    as (df_pred' & Hsteps & Hp').
  - apply NoDup_seq.
  - intros i Hi. apply Hf. unfold range in Hi. apply elem_of_seq in Hi. lia.
  - exact Hl.
  - exact Hp.
  - exact Hd.
  - destruct (IH df_pred' Hp') as [out Hout]. exists out. cbn.
    rewrite Hsteps. exact Hout.
Qed.

(** On a forecast frame for [n] steps the post-processing returns. *)
Lemma classify_total (n : Z) (df : DataFrame) :
  forecast_frame n df → ∃ out, Classification_NP.classify n df = Ok out.
Proof.
  intros (Hd & (Hn & ids & Hids) & Hl & Hf).
  destruct (predict_groups_total n
              ((λ k, (k, take_group k (Txt <$> ids) df)) <$> group_keys (Txt <$> ids)))
    with (df_pred := @nil (string * Series)) as [out Hout].
  - apply Forall_fmap, Forall_forall. intros k _. cbn. split; [| split].
    + by rewrite columns_take_group.
    + by apply has_label_take_group.
    + intros m Hm. by apply has_forecast_take_group, Hf.
  - apply NoDup_nil_2.
  - exists out. unfold Classification_NP.classify, groupby.
    rewrite (getitem_Ok df "ID" _ Hids Hn). exact Hout.
Qed.


(** *** The method *)

(** [predict], run: once the parent's [predict] and the normalisation have
    returned, the result is the classified frame put back in the shape of
    the input. *)
Lemma predict_run `{Forecaster} (df v : pyval) (st st' : state) (d : DataFrame)
    (received_ID_col received_single_time_series received_dict : bool) :
  NeuralProphet_predict df
    {| st_self := st_self st; st_trace := st_trace st ++ [super_predict_called df] |}
    = (st', Ok v) →
  prep_or_copy_df v
    = Ok (d, received_ID_col, received_single_time_series, received_dict) →
  Classification_NP.predict df st =
    (st',
     df_pred ← Classification_NP.classify (n_forecasts (st_self st')) d;
     return_df_in_original_format df_pred received_ID_col
       received_single_time_series received_dict).
Proof.
  intros Hsuper Hprep.
  unfold Classification_NP.predict, Classification_NP.super_predict.
  unfold emit, lift, get_self, mbind at 1 2 3 4 5, M_bind.
  cbn [st_self st_trace]. rewrite Hsuper, Hprep.
  destruct (Classification_NP.classify _ d); reflexivity.
Qed.

(** [predict], read backwards from a returned result. *)
Lemma predict_inv `{Forecaster} (df out : pyval) (st st' : state) :
  Classification_NP.predict df st = (st', Ok out) →
  ∃ forecast d received_ID_col received_single_time_series received_dict df_pred,
    NeuralProphet_predict df
      {| st_self := st_self st; st_trace := st_trace st ++ [super_predict_called df] |}
      = (st', Ok forecast) ∧
    prep_or_copy_df forecast
      = Ok (d, received_ID_col, received_single_time_series, received_dict) ∧
    Classification_NP.classify (n_forecasts (st_self st')) d = Ok df_pred ∧
    return_df_in_original_format df_pred received_ID_col
      received_single_time_series received_dict = Ok out.
Proof.
  unfold Classification_NP.predict, Classification_NP.super_predict.
  unfold emit, lift, get_self, mbind at 1 2 3 4 5, M_bind.
  cbn [st_self st_trace].
  destruct (NeuralProphet_predict df _) as [st1 [forecast |]]; [| discriminate].
  destruct (prep_or_copy_df forecast) as [[[[d a] b] c] |] eqn:Hprep; [| discriminate].
  destruct (Classification_NP.classify _ d) as [df_pred |] eqn:Hc; [| discriminate].
  destruct (return_df_in_original_format df_pred a b c) as [out' |] eqn:Hout;
    [| discriminate].
  intros [= <- <-]. exists forecast, d, a, b, c, df_pred. done.
Qed.

(** On a forecast frame, and with collaborators that return, [predict]
    returns. *)
Lemma predict_returns `{Forecaster} (df forecast : pyval) (st st' : state)
    (d : DataFrame)
    (received_ID_col received_single_time_series received_dict : bool) :
  NeuralProphet_predict df
    {| st_self := st_self st; st_trace := st_trace st ++ [super_predict_called df] |}
    = (st', Ok forecast) →
  prep_or_copy_df forecast
    = Ok (d, received_ID_col, received_single_time_series, received_dict) →
  forecast_frame (n_forecasts (st_self st')) d →
  (∀ df_pred, ∃ out, return_df_in_original_format df_pred received_ID_col
                       received_single_time_series received_dict = Ok out) →
  ∃ out, Classification_NP.predict df st = (st', Ok out).
Proof.
  intros Hsuper Hprep Hframe Hback.
  destruct (classify_total _ _ Hframe) as [df_pred Hc].
  destruct (Hback df_pred) as [out Hout]. exists out.
  rewrite (predict_run _ _ _ _ _ _ _ _ Hsuper Hprep), Hc. cbn.
  rewrite Hout. reflexivity.
Qed.

(** *** The claims on [predict] *)

(** C2, as the claim has it, fails: the series come out in ascending order
    of their identifiers, not in the order of the input.  Here the input
    lists "B" before "A", and so does the parent's forecast; the
    concatenation, and the output, list "A" before "B". *)
Lemma C2_counterexample :
  ∃ out,
    col Stub.two_series "ID" = Some [Txt "B"; Txt "B"; Txt "A"; Txt "A"] ∧
    Classification_NP.classify 1 Stub.two_series = Ok out ∧
    Classification_NP.predict (PyFrame Stub.two_series)
        (Stub.fresh (Stub.classifier "BCELoss" 0 1))
      = ({| st_self := Stub.classifier "BCELoss" 0 1;
            st_trace := [super_predict_called (PyFrame Stub.two_series)] |},
         Ok (PyFrame out)) ∧
    col out "ID" = Some [Txt "A"; Txt "A"; Txt "B"; Txt "B"].
Proof.
  eexists. split; [reflexivity |]. split; [vm_compute; reflexivity |].
  split; vm_compute; reflexivity.
Qed.

(** C2, amended: for every multi-series input to [predict], the output
    concatenation of per-series frames preserves the original row order
    within each series, and the series appear in ascending order of their
    identifiers, which is the order in which [groupby] hands out the groups.

    With [d] the normalised forecast, [ids] its identifier column and
    [df_pred] the concatenation that is handed back: the keys are
    identifiers of [d], strictly ascending (numbers before strings), and
    every identifier that is not missing is of the group of a key; every
    column of [d] that the steps do not write is in [df_pred] the sequence,
    over the keys in that order, of the frames appended for the key, each
    frame being the rows of the series as they follow each other in [d];
    and the identifier column holds, row by row in the same sequence, the
    key of the series. *)
Theorem C2_series_ascending_rows_in_order `{Forecaster}
    (df out : pyval) (st st' : state) :
  Classification_NP.predict df st = (st', Ok out) →
  ∃ forecast d received_ID_col received_single_time_series received_dict df_pred ids,
    NeuralProphet_predict df
      {| st_self := st_self st; st_trace := st_trace st ++ [super_predict_called df] |}
      = (st', Ok forecast) ∧
    prep_or_copy_df forecast
      = Ok (d, received_ID_col, received_single_time_series, received_dict) ∧
    return_df_in_original_format df_pred received_ID_col
      received_single_time_series received_dict = Ok out ∧
    col d "ID" = Some ids ∧
    Sorted (λ a b, key_compare a b = Lt) (group_keys ids) ∧
    (∀ k, k ∈ group_keys ids → k ∈ ids ∧ is_missing k = false) ∧
    (∀ i, i ∈ ids → is_missing i = false →
          ∃ k, k ∈ group_keys ids ∧ key_eqb i k = true) ∧
    default [] (col df_pred "ID")
      = (group_keys ids ≫= λ k,
           mjoin (replicate (Z.to_nat (n_forecasts (st_self st')))
                    ((λ _, k) <$> select k ids ids))) ∧
    ∀ c s,
      col d c = Some s →
      c ≠ "ID" →
      (∀ i, (1 ≤ i ≤ Z.to_nat (n_forecasts (st_self st')))%nat →
            c ∉ [fmt "yhat" i; fmt "yhat_raw" i; fmt "residual" i]) →
      default [] (col df_pred c)
        = group_keys ids ≫= λ k,
            mjoin (replicate (Z.to_nat (n_forecasts (st_self st'))) (select k ids s)).
Proof.
  intros Hrun.
  apply predict_inv in Hrun
    as (forecast & d & a & b & c & df_pred & Hsuper & Hprep & Hc & Hout).
  apply classify_columns in Hc as (ids & Hids & HID & Hcols).
  exists forecast, d, a, b, c, df_pred, ids.
  split; [exact Hsuper |]. split; [exact Hprep |]. split; [exact Hout |].
  split; [exact Hids |].
  split; [apply group_keys_sorted |].
  split.
  { intros k Hk. split; [by apply group_keys_in |].
    pose proof (group_keys_not_missing ids) as Hall.
    rewrite Forall_forall in Hall. by apply Hall. }
  split; [apply group_keys_covers |].
  split; [exact HID | exact Hcols].
Qed.

(** C2, amended, on the test double and the frame listing "B" before "A". *)
Lemma C2_witness :
  ∃ out st',
    Classification_NP.predict (PyFrame Stub.two_series)
        (Stub.fresh (Stub.classifier "BCELoss" 0 1)) = (st', Ok out) ∧
    ∃ forecast d received_ID_col received_single_time_series received_dict df_pred ids,
      NeuralProphet_predict (PyFrame Stub.two_series)
        {| st_self := st_self (Stub.fresh (Stub.classifier "BCELoss" 0 1));
           st_trace := st_trace (Stub.fresh (Stub.classifier "BCELoss" 0 1)) ++
                       [super_predict_called (PyFrame Stub.two_series)] |}
        = (st', Ok forecast) ∧
      prep_or_copy_df forecast
        = Ok (d, received_ID_col, received_single_time_series, received_dict) ∧
      return_df_in_original_format df_pred received_ID_col
        received_single_time_series received_dict = Ok out ∧
      col d "ID" = Some ids ∧
      Sorted (λ a b, key_compare a b = Lt) (group_keys ids) ∧
      (∀ k, k ∈ group_keys ids → k ∈ ids ∧ is_missing k = false) ∧
      (∀ i, i ∈ ids → is_missing i = false →
            ∃ k, k ∈ group_keys ids ∧ key_eqb i k = true) ∧
      default [] (col df_pred "ID")
        = (group_keys ids ≫= λ k,
             mjoin (replicate (Z.to_nat (n_forecasts (st_self st')))
                      ((λ _, k) <$> select k ids ids))) ∧
      ∀ c s,
        col d c = Some s →
        c ≠ "ID" →
        (∀ i, (1 ≤ i ≤ Z.to_nat (n_forecasts (st_self st')))%nat →
              c ∉ [fmt "yhat" i; fmt "yhat_raw" i; fmt "residual" i]) →
        default [] (col df_pred c)
          = group_keys ids ≫= λ k,
              mjoin (replicate (Z.to_nat (n_forecasts (st_self st'))) (select k ids s)).
Proof.
  eexists _, _. split; [vm_compute; reflexivity |].
  apply (C2_series_ascending_rows_in_order (PyFrame Stub.two_series) _
           (Stub.fresh (Stub.classifier "BCELoss" 0 1))).
  vm_compute. reflexivity.
Defined.

(** C4 at [n_forecasts = 2], one series, one row with label 1 and raw
    forecasts 0.25 and 0.75: the frame of the first step is appended before
    the second step has run, so the output has two rows for the one input
    row, and in the first of them [yhat_raw2] and [residual2] are NaN while
    [yhat2] still holds the raw 0.75 instead of its rounding. *)
Theorem C4_second_step_missing_in_first_frame :
  ∃ out,
    Classification_NP.classify 2 Stub.one_row = Ok out ∧
    nrows Stub.one_row = 1%nat ∧ nrows out = 2%nat ∧
    col out "yhat_raw1" = Some [Num (f64_dyadic 1 2); Num (f64_dyadic 1 2)] ∧
    col out "yhat1" = Some [Num (f64_of_Z 0); Num (f64_of_Z 0)] ∧
    col out "yhat_raw2" = Some [Num nan; Num (f64_dyadic 3 2)] ∧
    col out "yhat2" = Some [Num (f64_dyadic 3 2); Num (f64_of_Z 1)] ∧
    col out "residual2" = Some [Num nan; Num (f64_dyadic (-1) 2)] ∧
    rint (f64_dyadic 3 2) = f64_of_Z 1 ∧
    Classification_NP.predict (PyFrame Stub.one_row)
        (Stub.fresh (Stub.classifier "BCELoss" 0 2))
      = ({| st_self := Stub.classifier "BCELoss" 0 2;
            st_trace := [super_predict_called (PyFrame Stub.one_row)] |},
         Ok (PyFrame out)).
Proof.
  eexists. split; [vm_compute; reflexivity |].
  repeat split; vm_compute; reflexivity.
Qed.

(** C8: [predict] neither clamps nor validates the raw forecast.  Whatever
    float the raw forecast of a row is, the class prediction is its
    rounding; the raw forecast 1.75 lies above 1 and its class prediction
    is 2, which is neither 0 nor 1. *)
Theorem C8_out_of_range_forecast_not_clamped :
  (∀ x y : float64,
     ∃ out,
       Classification_NP.classify 1 (Stub.single_row x y) = Ok out ∧
       col out "yhat_raw1" = Some [Num x] ∧
       col out "yhat1" = Some [Num (rint x)]) ∧
  SFltb (f64_of_Z 1) (f64_dyadic 7 2) = true ∧
  rint (f64_dyadic 7 2) = f64_of_Z 2 ∧
  SFeqb (f64_of_Z 2) (f64_of_Z 0) = false ∧
  SFeqb (f64_of_Z 2) (f64_of_Z 1) = false ∧
  ∃ out,
    Classification_NP.predict (PyFrame (Stub.single_row (f64_dyadic 7 2) (f64_of_Z 1)))
        (Stub.fresh (Stub.classifier "BCELoss" 0 1))
      = ({| st_self := Stub.classifier "BCELoss" 0 1;
            st_trace := [super_predict_called
                           (PyFrame (Stub.single_row (f64_dyadic 7 2) (f64_of_Z 1)))] |},
         Ok (PyFrame out)) ∧
    col out "yhat1" = Some [Num (f64_of_Z 2)].
Proof.
  split.
  - intros x y. eexists. split; [vm_compute; reflexivity |].
    split; reflexivity.
  - repeat split; try (vm_compute; reflexivity).
    eexists. split; vm_compute; reflexivity.
Qed.

(** * Further properties *)

(** ** The constructor *)

(** X1: when the parent's resolved locals hold no "collect_metrics", the
    constructor stops with the [KeyError] of line 61, whatever
    [from_kwargs] would have done. *)
Theorem X1_missing_collect_metrics_key `{Forecaster}
    (loss : pyval) (args : list pyval) (kwargs : gmap string pyval)
    (self0 : NeuralProphet) :
  NeuralProphet_init args kwargs = Ok self0 →
  forecaster_locals self0 !! "collect_metrics" = None →
  Classification_NP.__init__ loss args kwargs = Raise (KeyError "collect_metrics").
Proof.
  intros Hsuper Hcm. unfold Classification_NP.__init__. rewrite Hsuper. cbn.
  unfold dict_getitem. rewrite lookup_insert_ne by done. rewrite Hcm. reflexivity.
Qed.

(** X1 on the test double, constructed without keyword arguments. *)
Lemma X1_witness :
  Classification_NP.__init__ (PyStr "bce") [] ∅ = Raise (KeyError "collect_metrics").
Proof.
  apply (X1_missing_collect_metrics_key (PyStr "bce") [] ∅ (Stub.parent ∅));
    reflexivity.
Defined.

(** X2: the training configuration is built before [collect_metrics] is
    looked at, so an error of [from_kwargs] is the error of the
    constructor, also when [collect_metrics] is unsupported. *)
Theorem X2_config_error_comes_first `{Forecaster}
    (loss : pyval) (args : list pyval) (kwargs : gmap string pyval)
    (self0 : NeuralProphet) (cm : pyval) (e : exception) :
  NeuralProphet_init args kwargs = Ok self0 →
  forecaster_locals self0 !! "collect_metrics" = Some cm →
  from_kwargs (<["loss_func" := loss]> (forecaster_locals self0)) = Raise e →
  Classification_NP.__init__ loss args kwargs = Raise e.
Proof.
  intros Hsuper Hcm Hcfg. unfold Classification_NP.__init__. rewrite Hsuper. cbn.
  unfold dict_getitem. rewrite lookup_insert_ne by done. rewrite Hcm. cbn.
  rewrite Hcfg. reflexivity.
Qed.

(** X2 on the test double: a loss that is no string, and the unsupported
    [collect_metrics] 42. *)
Lemma X2_witness :
  Classification_NP.__init__ (PyInt 1) [] (Stub.kwargs_with (PyInt 42))
    = Raise (NotImplementedError "Loss function name not defined").
Proof.
  apply (X2_config_error_comes_first (PyInt 1) [] (Stub.kwargs_with (PyInt 42))
           (Stub.parent (Stub.kwargs_with (PyInt 42))) (PyInt 42));
    vm_compute; reflexivity.
Defined.

(** X3: what a successful construction leaves of the parent's object: the
    two orders, the covariate configuration and every attribute the class
    does not name are as the parent set them, the resolved locals differ
    from the parent's under "loss_func" only, and the name is the
    classifier's. *)
Theorem X3_constructor_keeps_parent_attributes `{Forecaster}
    (loss : pyval) (args : list pyval) (kwargs : gmap string pyval)
    (o : NeuralProphet) :
  Classification_NP.__init__ loss args kwargs = Ok o →
  ∃ self0,
    NeuralProphet_init args kwargs = Ok self0 ∧
    n_lags o = n_lags self0 ∧
    n_forecasts o = n_forecasts self0 ∧
    config_covar o = config_covar self0 ∧
    attrs o = attrs self0 ∧
    name o = "NeuralProphetBinaryClassifier" ∧
    ∀ k, k ≠ "loss_func" → forecaster_locals o !! k = forecaster_locals self0 !! k.
Proof.
  unfold Classification_NP.__init__.
  destruct (NeuralProphet_init args kwargs) as [self0 |]; [cbn | discriminate].
  destruct (dict_getitem _ "collect_metrics") as [cm |]; [cbn | discriminate].
  destruct (from_kwargs _) as [cfg |]; [cbn | discriminate].
  destruct (Classification_NP.resolve_collect_metrics cm) as [r |]; [cbn | discriminate].
  destruct (Classification_NP.build_metrics cfg r) as [m |]; [cbn | discriminate].
  intros [= <-]. exists self0. cbn. repeat split.
  intros k Hk. by rewrite lookup_insert_ne.
Qed.

(** X3 on the test double, whose parent reads the orders 3 and 2 from its
    keyword arguments. *)
Lemma X3_witness :
  ∃ o,
    Classification_NP.__init__ (PyStr "bce") [] Stub.kwargs_orders = Ok o ∧
    ∃ self0,
      NeuralProphet_init [] Stub.kwargs_orders = Ok self0 ∧
      n_lags o = n_lags self0 ∧
      n_forecasts o = n_forecasts self0 ∧
      config_covar o = config_covar self0 ∧
      attrs o = attrs self0 ∧
      name o = "NeuralProphetBinaryClassifier" ∧
      ∀ k, k ≠ "loss_func" → forecaster_locals o !! k = forecaster_locals self0 !! k.
Proof.
  eexists. split; [vm_compute; reflexivity |].
  apply (X3_constructor_keeps_parent_attributes (PyStr "bce") [] Stub.kwargs_orders).
  vm_compute. reflexivity.
Defined.

(** Line 82 stops at the first entry whose [.lower()] raises. *)
Lemma mapM_tests_raise (names : list string) (v : pyval) (rest : list pyval)
    (e : exception) :
  py_lower v = Raise e →
  mapM (λ m, r ← py_lower m; py_in_keys METRICS r) ((PyStr <$> names) ++ v :: rest)
    = Raise e.
Proof.
  intros Hv. induction names as [|s names IH].
  - cbn. rewrite Hv. reflexivity.
  - cbn. cbn in IH. rewrite IH. reflexivity.
Qed.

Lemma py_in_keys_true (v : pyval) :
  py_in_keys METRICS v = Ok true →
  ∃ s, v = PyStr s ∧ s ∈ ["acc"; "bal_acc"; "f1"].
Proof.
  destruct v; try discriminate. cbn. intros [= Hs]. eexists. split; [reflexivity |].
  apply in_keys_METRICS in Hs. rewrite !elem_of_cons. tauto.
Qed.

Lemma py_getitem_str {V} (d : gmap string V) (v : pyval) (x : V) :
  py_getitem d v = Ok x → ∃ s, v = PyStr s ∧ dict_getitem d s = Ok x.
Proof. destruct v; try discriminate. cbn. eauto. Qed.

(** Line 82, read backwards: when every test is true, every entry lowers
    to a supported name. *)
Lemma mapM_tests_inv (l : list pyval) (tests : list bool) :
  mapM (λ m, r ← py_lower m; py_in_keys METRICS r) l = Ok tests →
  forallb id tests = true →
  Forall (λ v, ∃ s, py_lower v = Ok (PyStr s) ∧ s ∈ ["acc"; "bal_acc"; "f1"]) l.
Proof.
  revert tests. induction l as [|v l IH]; intros tests Hl Hall; [constructor |].
  cbn in Hl. apply bind_Ok in Hl as (t & Ht & Hl).
  apply bind_Ok in Hl as (ts & Hts & Hl). injection Hl as <-.
  cbn in Hall. apply andb_prop in Hall as [Hhd Htl]. unfold id in Hhd. subst t.
  apply bind_Ok in Ht as (r & Hr & Ht).
  apply py_in_keys_true in Ht as (s & -> & Hs).
  constructor; [eauto | by apply (IH ts)].
Qed.

(** Lines 82 and 91 on entries that lower to supported names. *)
Lemma mapM_supported (l : list pyval) :
  Forall (λ v, ∃ s, py_lower v = Ok (PyStr s) ∧ s ∈ ["acc"; "bal_acc"; "f1"]) l →
  (∃ tests, mapM (λ m, r ← py_lower m; py_in_keys METRICS r) l = Ok tests ∧
            forallb id tests = true) ∧
  ∃ requested, mapM (λ m, k ← py_lower m; py_getitem METRICS k) l = Ok requested.
Proof.
  induction 1 as [|v l (s & Hv & Hs) _ [(tests & Htests & Hall) (requested & Hreq)]].
  - split; [exists [] | exists []]; done.
  - assert (Hkey : in_keys METRICS s = true).
    { apply in_keys_METRICS. rewrite !elem_of_cons, elem_of_nil in Hs. tauto. }
    split.
    + exists (true :: tests). cbn. rewrite Hv. cbn. rewrite Hkey. cbn.
      cbn in Htests. rewrite Htests. done.
    + unfold in_keys in Hkey. apply bool_decide_eq_true in Hkey as [m Hm].
      exists (m :: requested). cbn. rewrite Hv. cbn. unfold dict_getitem.
      rewrite Hm. cbn. cbn in Hreq. rewrite Hreq. reflexivity.
Qed.

Lemma METRICS_values (k : string) (m : metric) :
  dict_getitem METRICS k = Ok m → m ∈ [Accuracy; Balanced_Accuracy; F1Score].
Proof.
  unfold dict_getitem, METRICS.
  destruct (decide (k = "acc")) as [-> | ?].
  { rewrite lookup_insert_eq. intros [= <-]. set_solver. }
  rewrite lookup_insert_ne by done.
  destruct (decide (k = "bal_acc")) as [-> | ?].
  { rewrite lookup_insert_eq. intros [= <-]. set_solver. }
  rewrite lookup_insert_ne by done.
  destruct (decide (k = "f1")) as [-> | ?].
  { rewrite lookup_insert_eq. intros [= <-]. set_solver. }
  rewrite lookup_insert_ne, lookup_empty by done. discriminate.
Qed.

Lemma requested_metrics (l : list pyval) (requested : list metric) :
  mapM (λ m, k ← py_lower m; py_getitem METRICS k) l = Ok requested →
  Forall (λ m, m ∈ [Accuracy; Balanced_Accuracy; F1Score]) requested.
Proof.
  revert requested. induction l as [|v l IH]; intros requested Hl.
  - cbn in Hl. injection Hl as <-. constructor.
  - cbn in Hl. apply bind_Ok in Hl as (m & Hm & Hl).
    apply bind_Ok in Hl as (ms & Hms & Hl). injection Hl as <-.
    apply bind_Ok in Hm as (k & _ & Hm).
    apply py_getitem_str in Hm as (s & _ & Hm).
    constructor; [by apply (METRICS_values s) | by apply IH].
Qed.

(** X4: a list with an entry whose [.lower()] raises stops the
    constructor with that exception, raised for the first such entry,
    whatever the strings before it and the entries after it are: for an
    entry of a type without the method, [None] or an [int] say, it is the
    attribute error that names the type. *)
Theorem X4_entry_without_lower `{Forecaster}
    (loss : pyval) (args : list pyval) (kwargs : gmap string pyval)
    (self0 : NeuralProphet) (cfg : configure.Train)
    (names : list string) (v : pyval) (rest : list pyval) (e : exception) :
  NeuralProphet_init args kwargs = Ok self0 →
  forecaster_locals self0 !! "collect_metrics"
    = Some (PyList ((PyStr <$> names) ++ v :: rest)) →
  from_kwargs (<["loss_func" := loss]> (forecaster_locals self0)) = Ok cfg →
  py_lower v = Raise e →
  Classification_NP.__init__ loss args kwargs = Raise e.
Proof.
  intros Hsuper Hcm Hcfg Hv.
  rewrite (init_run _ _ _ _ _ _ Hsuper Hcm Hcfg).
  unfold Classification_NP.resolve_collect_metrics.
  rewrite (mapM_tests_raise names v rest e Hv). reflexivity.
Qed.

(** X4 on the test double: the list "acc", "xyz", [None], "f1". *)
Lemma X4_witness :
  Classification_NP.__init__ (PyStr "bce") []
      (Stub.kwargs_with (PyList [PyStr "acc"; PyStr "xyz"; PyNone; PyStr "f1"]))
    = Raise (AttributeError "'NoneType' object has no attribute 'lower'").
Proof.
  pose (cm := PyList [PyStr "acc"; PyStr "xyz"; PyNone; PyStr "f1"]).
  apply (X4_entry_without_lower (PyStr "bce") [] (Stub.kwargs_with cm)
           (Stub.parent (Stub.kwargs_with cm))
           {| configure.loss_func := PyStr "bce"; configure.loss_func_name := "bce" |}
           ["acc"; "xyz"] PyNone [PyStr "f1"]).
  - reflexivity.
  - vm_compute. reflexivity.
  - vm_compute. reflexivity.
  - reflexivity.
Defined.

(** X5: whenever the constructor returns, the metrics collection is unset
    exactly when the parent resolved [collect_metrics] to [False]; when it
    is set, it has the one value tracker "Loss", its first metric is the
    loss metric of the training configuration's loss function, and every
    other metric is an accuracy, a balanced accuracy or an F1 score. *)
Theorem X5_metrics_of_a_constructed_classifier `{Forecaster}
    (loss : pyval) (args : list pyval) (kwargs : gmap string pyval)
    (o : NeuralProphet) :
  Classification_NP.__init__ loss args kwargs = Ok o →
  ∃ self0 cm,
    NeuralProphet_init args kwargs = Ok self0 ∧
    forecaster_locals self0 !! "collect_metrics" = Some cm ∧
    (metrics o = None ↔ cm = PyBool false) ∧
    ∀ mc, metrics o = Some mc →
      value_metrics mc = [ValueMetric "Loss"] ∧
      ∃ requested,
        batch_metrics mc = LossMetric (configure.loss_func (config_train o)) :: requested ∧
        Forall (λ m, m ∈ [Accuracy; Balanced_Accuracy; F1Score]) requested.
Proof.
  unfold Classification_NP.__init__.
  destruct (NeuralProphet_init args kwargs) as [self0 |]; [cbn | discriminate].
  unfold dict_getitem at 1. rewrite lookup_insert_ne by done.
  destruct (forecaster_locals self0 !! "collect_metrics") as [cm |] eqn:Hcm;
    [cbn | discriminate].
  destruct (from_kwargs _) as [cfg |]; [cbn | discriminate].
  intros Hrun. apply bind_Ok in Hrun as (r & Hr & Hrun).
  apply bind_Ok in Hrun as (m & Hm & Hrun). injection Hrun as <-. cbn.
  exists self0, cm. split; [reflexivity |]. split; [exact Hcm |].
  assert (Hshape : (cm = PyBool false ∧ r = PyBool false) ∨ ∃ l, r = PyList l).
  { destruct cm as [| [|] | z | s | b | l | d | df | cls lw]; cbn in Hr;
      try discriminate.
    - injection Hr as <-. eauto.
    - injection Hr as <-. eauto.
    - injection Hr as <-. eauto.
    - destruct (negb _); [discriminate |]. injection Hr as <-. eauto.
    - apply bind_Ok in Hr as (tests & _ & Hr).
      destruct (negb _); [discriminate |]. injection Hr as <-. eauto. }
  destruct Hshape as [[-> ->] | [l ->]].
  - cbn in Hm. injection Hm as <-. split; [done |]. discriminate.
  - cbn in Hm. apply bind_Ok in Hm as (requested & Hreq & Hm). injection Hm as <-.
    split.
    + split; [discriminate |]. intros ->. cbn in Hr. discriminate.
    + intros mc [= <-]. cbn. split; [reflexivity |].
      exists requested. split; [reflexivity |]. by apply (requested_metrics l).
Qed.

(** X5 on the test double, constructed with the single name "F1". *)
Lemma X5_witness :
  ∃ o,
    Classification_NP.__init__ (PyStr "bce") [] (Stub.kwargs_with (PyStr "F1")) = Ok o ∧
    ∃ self0 cm,
      NeuralProphet_init [] (Stub.kwargs_with (PyStr "F1")) = Ok self0 ∧
      forecaster_locals self0 !! "collect_metrics" = Some cm ∧
      (metrics o = None ↔ cm = PyBool false) ∧
      ∀ mc, metrics o = Some mc →
        value_metrics mc = [ValueMetric "Loss"] ∧
        ∃ requested,
          batch_metrics mc = LossMetric (configure.loss_func (config_train o)) :: requested ∧
          Forall (λ m, m ∈ [Accuracy; Balanced_Accuracy; F1Score]) requested.
Proof.
  eexists. split; [vm_compute; reflexivity |].
  apply (X5_metrics_of_a_constructed_classifier (PyStr "bce") []
           (Stub.kwargs_with (PyStr "F1"))).
  vm_compute. reflexivity.
Defined.

(** X6: with a parent and a [from_kwargs] that return, the constructor
    returns exactly for these values of [collect_metrics]: [None], a bool,
    a supported name in any letter case, or a list whose every entry
    lowers to a supported name (for a string: a supported name in any
    letter case). *)
Theorem X6_constructor_returns_iff `{Forecaster}
    (loss : pyval) (args : list pyval) (kwargs : gmap string pyval)
    (self0 : NeuralProphet) (cm : pyval) (cfg : configure.Train) :
  NeuralProphet_init args kwargs = Ok self0 →
  forecaster_locals self0 !! "collect_metrics" = Some cm →
  from_kwargs (<["loss_func" := loss]> (forecaster_locals self0)) = Ok cfg →
  (∃ o, Classification_NP.__init__ loss args kwargs = Ok o) ↔
  (cm = PyNone ∨ (∃ b, cm = PyBool b) ∨
   (∃ s, cm = PyStr s ∧ lower s ∈ ["acc"; "bal_acc"; "f1"]) ∨
   (∃ l, cm = PyList l ∧
         Forall (λ v, ∃ s, py_lower v = Ok (PyStr s) ∧ s ∈ ["acc"; "bal_acc"; "f1"]) l)).
Proof.
  intros Hsuper Hcm Hcfg.
  rewrite (init_run _ _ _ _ _ _ Hsuper Hcm Hcfg). split.
  - intros [o Hrun]. apply bind_Ok in Hrun as (r & Hr & _).
    destruct cm as [| b | z | s | b | l | d | df | cls lw]; cbn in Hr; try discriminate.
    + by left.
    + right. left. eauto.
    + right. right. left. exists s. split; [reflexivity |].
      apply supported_in_keys. by destruct (in_keys METRICS (lower s)).
    + right. right. right. exists l. split; [reflexivity |].
      apply bind_Ok in Hr as (tests & Htests & Hr).
      destruct (forallb id tests) eqn:Hall; [| discriminate].
      by apply (mapM_tests_inv l tests).
  - intros [-> | [[b ->] | [(s & -> & Hs) | (l & -> & Hl)]]].
    + eexists. reflexivity.
    + destruct b; eexists; reflexivity.
    + apply supported_in_keys in Hs as Hkey.
      destruct (mapM_lookup_names [s]) as (requested & Hreq & _); [by constructor |].
      cbn. rewrite Hkey. cbn. cbn in Hreq. rewrite Hreq. eexists. reflexivity.
    + destruct (mapM_supported l Hl) as [(tests & Htests & Hall) (requested & Hreq)].
      cbn. cbn in Htests. rewrite Htests. cbn. rewrite Hall. cbn.
      cbn in Hreq. rewrite Hreq. eexists. reflexivity.
Qed.

(** X6 on the test double, for the single name "F1". *)
Lemma X6_witness :
  (∃ o, Classification_NP.__init__ (PyStr "bce") [] (Stub.kwargs_with (PyStr "F1")) = Ok o) ↔
  (PyStr "F1" = PyNone ∨ (∃ b, PyStr "F1" = PyBool b) ∨
   (∃ s, PyStr "F1" = PyStr s ∧ lower s ∈ ["acc"; "bal_acc"; "f1"]) ∨
   (∃ l, PyStr "F1" = PyList l ∧
         Forall (λ v, ∃ s, py_lower v = Ok (PyStr s) ∧ s ∈ ["acc"; "bal_acc"; "f1"]) l)).
Proof.
  apply (X6_constructor_returns_iff (PyStr "bce") [] (Stub.kwargs_with (PyStr "F1"))
           (Stub.parent (Stub.kwargs_with (PyStr "F1"))) (PyStr "F1")
           {| configure.loss_func := PyStr "bce"; configure.loss_func_name := "bce" |});
    vm_compute; reflexivity.
Defined.

(** X17: the part of the configuration error that the constructor does
    raise.  With a parent and a [from_kwargs] that return, construction
    raises the configuration error, and yields no instance, whenever
    [collect_metrics] is an unsupported single string, a list of strings
    with an unsupported entry, or a value that is not [None], a bool, a
    string or a list. *)
Theorem X17_unsupported_values_raise_configuration_error `{Forecaster}
    (loss : pyval) (args : list pyval) (kwargs : gmap string pyval)
    (self0 : NeuralProphet) (cm : pyval) (cfg : configure.Train) :
  NeuralProphet_init args kwargs = Ok self0 →
  forecaster_locals self0 !! "collect_metrics" = Some cm →
  from_kwargs (<["loss_func" := loss]> (forecaster_locals self0)) = Ok cfg →
  (∃ s, cm = PyStr s ∧ lower s ∉ ["acc"; "bal_acc"; "f1"]) ∨
  (∃ names, cm = PyList (PyStr <$> names) ∧
            Exists (λ s, lower s ∉ ["acc"; "bal_acc"; "f1"]) names) ∨
  (cm ≠ PyNone ∧ (∀ b, cm ≠ PyBool b) ∧ (∀ s, cm ≠ PyStr s) ∧ (∀ l, cm ≠ PyList l)) →
  Classification_NP.__init__ loss args kwargs = Raise unsupported_collect_metrics.
Proof.
  intros Hsuper Hcm Hcfg Hbad.
  rewrite (init_run _ _ _ _ _ _ Hsuper Hcm Hcfg).
  destruct Hbad as [(s & -> & Hs) | [(names & -> & Hs) | (Hn & Hb & Hs & Hl)]].
  - apply unsupported_in_keys in Hs. cbn. rewrite Hs. reflexivity.
  - cbn. pose proof (mapM_tests_names names) as Htests. cbn in Htests.
    rewrite Htests. cbn.
    rewrite forallb_in_keys_false; [reflexivity |].
    eapply Exists_impl; [exact Hs |].
    intros s Hbad. by apply unsupported_in_keys.
  - destruct cm as [| b | z | s | b | l | d | df | cls lw]; try reflexivity.
    + congruence.
    + by destruct (Hb b).
    + by destruct (Hs s).
    + by destruct (Hl l).
Qed.

(** X17 on the test double: the bytes [b"acc"], which are no string. *)
Lemma X17_witness :
  Classification_NP.__init__ (PyStr "bce") [] (Stub.kwargs_with (PyBytes "acc"))
    = Raise unsupported_collect_metrics.
Proof.
  apply (X17_unsupported_values_raise_configuration_error (PyStr "bce") []
           (Stub.kwargs_with (PyBytes "acc"))
           (Stub.parent (Stub.kwargs_with (PyBytes "acc"))) (PyBytes "acc")
           {| configure.loss_func := PyStr "bce"; configure.loss_func_name := "bce" |});
    [reflexivity | vm_compute; reflexivity | vm_compute; reflexivity |].
  right. right. repeat split; discriminate.
Defined.

(** ** [fit] *)

(** X7: the warnings are logged before the loss is tested.  With a loss
    other than bce the trace has grown, when [fit] raises, by the
    auto-regression warning if [n_lags] is above zero and then by the
    lagged-regressor warning if the maximum lag is zero, and by nothing
    else. *)
Theorem X7_fit_warns_before_it_raises `{Forecaster}
    (df freq validation_df progress minimal : pyval) (st : state) :
  lower (configure.loss_func_name (config_train (st_self st))) ∉ ["bce"; "bceloss"] →
  st_trace (Classification_NP.fit df freq validation_df progress minimal st).1 =
    st_trace st ++
    (if bool_decide (n_lags (st_self st) > 0)
     then [log_warning_record ar_warning] else []) ++
    (if bool_decide (get_max_num_lags (config_covar (st_self st)) (n_lags (st_self st)) = 0)
     then [log_warning_record no_lag_warning] else []).
Proof.
  intros Hloss. destruct st as [o tr]. cbn [st_self st_trace] in *.
  rewrite fit_run. rewrite (bool_decide_eq_false_2 _ Hloss). reflexivity.
Qed.

(** X7 on the test double, with [n_lags = 2] and the loss name "MSELoss". *)
Lemma X7_witness :
  st_trace (Stub.fit_call (Stub.classifier "MSELoss" 2 1)).1 =
    [] ++
    (if bool_decide (n_lags (Stub.classifier "MSELoss" 2 1) > 0)
     then [log_warning_record ar_warning] else []) ++
    (if bool_decide (get_max_num_lags (config_covar (Stub.classifier "MSELoss" 2 1))
                       (n_lags (Stub.classifier "MSELoss" 2 1)) = 0)
     then [log_warning_record no_lag_warning] else []).
Proof.
  apply (X7_fit_warns_before_it_raises (fit_df Stub.call) (freq Stub.call)
           (validation_df Stub.call) (progress Stub.call) (minimal Stub.call)
           (Stub.fresh (Stub.classifier "MSELoss" 2 1))).
  vm_compute. intros Hin.
  repeat (apply elem_of_cons in Hin as [Hin | Hin]; [discriminate |]).
  by apply elem_of_nil in Hin.
Defined.

(** X8: a classifier set up as the class asks, with a bce loss, no
    auto-regression and a lagged input, is trained without a warning:
    [fit] logs the info record, enters the parent's [fit] with its own
    arguments on the unchanged object, and returns what that returns. *)
Theorem X8_fit_without_warning `{Forecaster}
    (df freq validation_df progress minimal : pyval) (st : state) :
  lower (configure.loss_func_name (config_train (st_self st))) ∈ ["bce"; "bceloss"] →
  n_lags (st_self st) ≤ 0 →
  get_max_num_lags (config_covar (st_self st)) (n_lags (st_self st)) ≠ 0 →
  Classification_NP.fit df freq validation_df progress minimal st =
    NeuralProphet_fit
      {| fit_df := df; freq := freq; validation_df := validation_df;
         progress := progress; minimal := minimal |}
      {| st_self := st_self st;
         st_trace := st_trace st ++
                     [log_info_record "Classification with bce loss";
                      super_fit_called
                        {| fit_df := df; freq := freq; validation_df := validation_df;
                           progress := progress; minimal := minimal |}] |}.
Proof.
  intros Hloss Hlags Hmax. destruct st as [o tr]. cbn [st_self st_trace] in *.
  rewrite fit_run. rewrite (bool_decide_eq_true_2 _ Hloss).
  rewrite (bool_decide_eq_false_2 (n_lags o > 0)) by lia.
  rewrite (bool_decide_eq_false_2 _ Hmax). reflexivity.
Qed.

(** X8 on a test double with a lagged regressor of five lags. *)
Lemma X8_witness :
  @Classification_NP.fit Stub.with_lagged_regressor (fit_df Stub.call) (freq Stub.call)
      (validation_df Stub.call) (progress Stub.call) (minimal Stub.call)
      (Stub.fresh (Stub.classifier "BCELoss" 0 1)) =
    @NeuralProphet_fit Stub.with_lagged_regressor Stub.call
      {| st_self := Stub.classifier "BCELoss" 0 1;
         st_trace := [] ++
                     [log_info_record "Classification with bce loss";
                      super_fit_called Stub.call] |}.
Proof.
  apply (@X8_fit_without_warning Stub.with_lagged_regressor (fit_df Stub.call)
           (freq Stub.call) (validation_df Stub.call) (progress Stub.call)
           (minimal Stub.call) (Stub.fresh (Stub.classifier "BCELoss" 0 1))).
  - vm_compute. apply list_elem_of_further, list_elem_of_here.
  - vm_compute. discriminate.
  - vm_compute. discriminate.
Defined.

(** ** [predict] *)

(** X9: [predict] writes nothing to the object or the trace after the
    parent's [predict] has returned: whether the post-processing returns or
    raises, the state is the one the parent left; and what the parent
    raises, [predict] raises. *)
Theorem X9_predict_leaves_the_parents_state `{Forecaster} (df : pyval) (st : state) :
  (Classification_NP.predict df st).1 =
    (NeuralProphet_predict df
       {| st_self := st_self st;
          st_trace := st_trace st ++ [super_predict_called df] |}).1 ∧
  ∀ e,
    (NeuralProphet_predict df
       {| st_self := st_self st;
          st_trace := st_trace st ++ [super_predict_called df] |}).2 = Raise e →
    (Classification_NP.predict df st).2 = Raise e.
Proof.
  assert (Hrun :
    ∃ r, Classification_NP.predict df st =
           ((NeuralProphet_predict df
               {| st_self := st_self st;
                  st_trace := st_trace st ++ [super_predict_called df] |}).1, r) ∧
         ∀ e, (NeuralProphet_predict df
                 {| st_self := st_self st;
                    st_trace := st_trace st ++ [super_predict_called df] |}).2 = Raise e →
              r = Raise e).
  { unfold Classification_NP.predict, Classification_NP.super_predict.
    unfold emit, lift, get_self, mbind at 1 2 3 4 5, M_bind.
    cbn [st_self st_trace].
    destruct (NeuralProphet_predict df _) as [st1 [forecast | e0]]; cbn [fst snd].
    - destruct (prep_or_copy_df forecast) as [[[[d a] b] c] |];
        [| eexists; split; [reflexivity | discriminate]].
      destruct (Classification_NP.classify _ d) as [df_pred |];
        [| eexists; split; [reflexivity | discriminate]].
      destruct (return_df_in_original_format df_pred a b c);
        eexists; (split; [reflexivity | discriminate]).
    - eexists. split; [reflexivity |]. intros e He. exact He. }
  destruct Hrun as (r & -> & Hr). split; [reflexivity | exact Hr].
Qed.

Lemma select_key_nonempty (k : cell) (ids : Series) :
  k ∈ ids → is_missing k = false → select k ids ids ≠ [].
Proof.
  intros Hin Hk. induction ids as [|i ids IH]; [by apply elem_of_nil in Hin |].
  cbn. destruct (key_eqb i k) eqn:Heq; [discriminate |].
  apply elem_of_cons in Hin as [-> | Hin]; [| by apply IH].
  by rewrite key_eqb_refl in Heq.
Qed.

Lemma group_keys_nil (ids : Series) :
  group_keys ids = [] ↔ Forall (λ c, is_missing c = true) ids.
Proof.
  split.
  - intros Hnil. apply Forall_forall. intros c Hc.
    destruct (is_missing c) eqn:Hmiss; [reflexivity |].
    destruct (group_keys_covers ids c Hc Hmiss) as (k & Hk & _).
    rewrite Hnil in Hk. by apply elem_of_nil in Hk.
  - induction 1 as [|c ids Hc _ IH]; cbn; [reflexivity |]. by rewrite Hc.
Qed.

(** X10: the concatenation is the empty frame, without a column, exactly
    when there is no step to take ([n_forecasts] is zero or below) or no
    row of the forecast has an identifier; the columns of the forecast are
    then gone too. *)
Theorem X10_empty_concatenation (n : Z) (df out : DataFrame) (ids : Series) :
  col df "ID" = Some ids →
  Classification_NP.classify n df = Ok out →
  out = [] ↔ n ≤ 0 ∨ Forall (λ c, is_missing c = true) ids.
Proof.
  intros Hids Hrun.
  destruct (classify_columns n df out Hrun) as (ids' & Hids' & HID & _).
  rewrite Hids in Hids'. injection Hids' as <-. split.
  - intros ->. cbn in HID.
    destruct (decide (n ≤ 0)) as [| Hn]; [by left | right].
    apply group_keys_nil.
    destruct (group_keys ids) as [|k keys] eqn:Hkeys; [reflexivity | exfalso].
    assert (Hk : k ∈ group_keys ids) by (rewrite Hkeys; apply list_elem_of_here).
    assert (Hsel : select k ids ids ≠ []).
    { apply select_key_nonempty; [by apply group_keys_in |].
      pose proof (group_keys_not_missing ids) as Hall.
      rewrite Forall_forall in Hall. by apply Hall. }
    destruct (Z.to_nat n) as [|m] eqn:Hm; [lia |].
    rewrite bind_cons in HID.
    change (mjoin (replicate (S m) ?x)) with (x ++ mjoin (replicate m x)) in HID.
    symmetry in HID. apply app_eq_nil in HID as [HID _].
    apply app_eq_nil in HID as [HID _].
    apply fmap_nil_inv in HID. done.
  - intros Hempty. unfold Classification_NP.classify, groupby in Hrun.
    apply bind_Ok in Hrun as (groups & Hgroups & Hrun).
    apply bind_Ok in Hgroups as (ids' & Hids' & Hgroups).
    injection Hgroups as <-.
    apply getitem_col in Hids'. rewrite Hids in Hids'. injection Hids' as <-.
    destruct Hempty as [Hn | Hmiss].
    + assert (Hrange : range n = []) by (unfold range; by rewrite Z2Nat.nonpos).
      clear HID. revert Hrun. generalize (group_keys ids).
      intros keys. induction keys as [|k keys IH]; cbn.
      * by intros [= <-].
      * rewrite Hrange. cbn. exact IH.
    + apply group_keys_nil in Hmiss. rewrite Hmiss in Hrun.
      cbn in Hrun. by injection Hrun as <-.
Qed.

(** X10 on the test double's two series, with no step to take. *)
Lemma X10_witness :
  @nil (string * Series) = [] ↔
  0 ≤ 0 ∨ Forall (λ c, is_missing c = true) [Txt "B"; Txt "B"; Txt "A"; Txt "A"].
Proof.
  apply (X10_empty_concatenation 0 Stub.two_series []).
  - reflexivity.
  - vm_compute. reflexivity.
Defined.

(** *** Missing columns *)

Lemma col_rename_none (df : DataFrame) (old new : string) :
  col df old = None → col df new = None → col (rename df old new) new = None.
Proof.
  unfold rename. induction df as [|[c s] df IH]; cbn; [done |].
  destruct (String.eqb c old) eqn:Hold; [discriminate |].
  destruct (String.eqb c new) eqn:Hnew; [discriminate |].
  exact IH.
Qed.

Lemma predict_step_missing_forecast (i : nat) (k : cell) (df : DataFrame) :
  col df (fmt "yhat" (i + 1)) = None →
  col df (fmt "yhat_raw" (i + 1)) = None →
  Classification_NP.predict_step i k df = Raise (KeyError (fmt "yhat_raw" (i + 1))).
Proof.
  intros Hold Hnew.
  assert (Hraw : getitem (rename df (fmt "yhat" (i + 1)) (fmt "yhat_raw" (i + 1)))
                   (fmt "yhat_raw" (i + 1)) = Raise (KeyError (fmt "yhat_raw" (i + 1)))).
  { unfold getitem. by rewrite (col_rename_none _ _ _ Hold Hnew). }
  unfold Classification_NP.predict_step. cbv zeta. rewrite Hraw. reflexivity.
Qed.

Lemma predict_step_missing_label (i : nat) (k : cell) (df : DataFrame) :
  has_forecast df (i + 1) → col df "y" = None →
  Classification_NP.predict_step i k df = Raise (KeyError "y").
Proof.
  intros (Hn & Hz & s & Hs & Hnum) Hy.
  pose proof (fmt_yhat_ne_raw (i + 1) (i + 1)) as Hne.
  destruct (to_float64_numeric s Hnum) as [xs Hxs].
  assert (Hraw0 : getitem (rename df (fmt "yhat" (i + 1)) (fmt "yhat_raw" (i + 1)))
                    (fmt "yhat_raw" (i + 1)) = Ok s).
  { apply getitem_Ok.
    - rewrite col_rename_new; [exact Hs | by apply count_label_0].
    - by rewrite count_label_rename_new. }
  assert (Hraw : getitem
                   (setitem (rename df (fmt "yhat" (i + 1)) (fmt "yhat_raw" (i + 1)))
                      (fmt "yhat" (i + 1)) (Num ∘ rint <$> xs))
                   (fmt "yhat_raw" (i + 1)) = Ok s).
  { apply getitem_col in Hraw0 as Hcol. apply getitem_Ok.
    - by rewrite col_setitem_ne.
    - rewrite count_label_setitem_ne by done.
      by rewrite count_label_rename_new. }
  assert (Hgy : getitem
                  (setitem (rename df (fmt "yhat" (i + 1)) (fmt "yhat_raw" (i + 1)))
                     (fmt "yhat" (i + 1)) (Num ∘ rint <$> xs))
                  "y" = Raise (KeyError "y")).
  { unfold getitem.
    by rewrite col_setitem_ne, col_rename_ne, Hy by (simpl; discriminate). }
  unfold Classification_NP.predict_step. cbv zeta.
  rewrite Hraw0. change (Ok s ≫= ?f) with (f s). cbv beta.
  rewrite Hxs. change (Ok xs ≫= ?f) with (f xs). cbv beta.
  rewrite Hraw. change (Ok s ≫= ?f) with (f s). cbv beta.
  rewrite Hgy. reflexivity.
Qed.

(** The inner loop stops at the first step whose forecast column is
    missing. *)
Lemma predict_steps_missing (k : cell) (p : nat) (post : list nat) :
  ∀ (pre : list nat) (df_pred df_i : DataFrame),
    NoDup pre → p ∉ pre →
    NoDup (columns df_pred) → NoDup (columns df_i) →
    (∀ j, j ∈ pre → has_forecast df_i (j + 1)) → has_label df_i →
    col df_i (fmt "yhat" (p + 1)) = None →
    col df_i (fmt "yhat_raw" (p + 1)) = None →
    Classification_NP.predict_steps (pre ++ p :: post) k df_pred df_i
      = Raise (KeyError (fmt "yhat_raw" (p + 1))).
Proof.
  induction pre as [|j pre IH]; intros df_pred df_i Hnd Hp Hdp Hdi Hf Hl Hold Hnew.
  - cbn. by rewrite predict_step_missing_forecast.
  - apply NoDup_cons in Hnd as [Hj Hnd]. apply not_elem_of_cons in Hp as [Hpj Hp].
    destruct (predict_step_total j k df_i) as [df_i' Hstep];
      [apply Hf, list_elem_of_here | exact Hl |].
    assert (Hdi' : NoDup (columns df_i')).
    { apply (predict_step_NoDup j k df_i); [exact Hstep | | exact Hdi].
      destruct (Hf j (list_elem_of_here _ _)) as (_ & Hz & _).
      by apply count_label_0. }
    destruct (concat_NoDup df_pred df_i' Hdp Hdi') as (df_pred' & Hcat & Hdp').
    cbn. rewrite Hstep. change (Ok df_i' ≫= ?f) with (f df_i'). cbv beta.
    rewrite Hcat. change (Ok df_pred' ≫= ?f) with (f df_pred'). cbv beta.
    apply IH; [exact Hnd | exact Hp | exact Hdp' | exact Hdi' | | | |].
    + intros j' Hj'. apply (predict_step_keeps_forecast j k df_i); [exact Hstep | |].
      * intros Heq. assert (j' = j) as -> by lia. done.
      * by apply Hf, list_elem_of_further.
    + by apply (predict_step_keeps_label j k df_i).
    + rewrite (predict_step_other j k df_i df_i' _ Hstep); [exact Hold | |].
      * simpl. discriminate.
      * rewrite !not_elem_of_cons. repeat split.
        -- intros Heq. apply fmt_inj in Heq. lia.
        -- apply fmt_yhat_ne_raw.
        -- simpl. discriminate.
        -- apply not_elem_of_nil.
    + rewrite (predict_step_other j k df_i df_i' _ Hstep); [exact Hnew | |].
      * simpl. discriminate.
      * rewrite !not_elem_of_cons. repeat split.
        -- intros Heq. symmetry in Heq. by apply fmt_yhat_ne_raw in Heq.
        -- intros Heq. apply fmt_inj in Heq. lia.
        -- simpl. discriminate.
        -- apply not_elem_of_nil.
Qed.

Lemma group_keys_cons (i : string) (ids : list string) :
  ∃ k keys, group_keys (Txt <$> i :: ids) = k :: keys.
Proof.
  rewrite group_keys_Txt.
  assert (Hin : i ∈ group_ids (i :: ids)).
  { apply group_ids_elem. apply list_elem_of_here. }
  destruct (group_ids (i :: ids)) as [|k keys].
  - by apply elem_of_nil in Hin.
  - by exists (Txt k), (Txt <$> keys).
Qed.

(** X11: when the forecast, a frame without a repeated column label,
    lacks the raw forecast column of a step [m] that [n_forecasts] asks
    for, and has no column under the raw-variant name either, [predict]
    stops with a [KeyError] that names the raw variant [yhat_raw<m>], not
    the column [yhat<m>] that is missing: [rename] passes over the absent
    label and the selection that follows fails. *)
Theorem X11_missing_forecast_column (n : Z) (m : nat) (df : DataFrame)
    (i : string) (ids : list string) :
  (1 ≤ m ≤ Z.to_nat n)%nat →
  NoDup (columns df) →
  count_label df "ID" = 1%nat →
  col df "ID" = Some (Txt <$> i :: ids) →
  has_label df →
  (∀ j, (1 ≤ j < m)%nat → has_forecast df j) →
  col df (fmt "yhat" m) = None →
  col df (fmt "yhat_raw" m) = None →
  Classification_NP.classify n df = Raise (KeyError (fmt "yhat_raw" m)).
Proof.
  intros Hm Hd Hn Hids Hl Hf Hold Hnew.
  unfold Classification_NP.classify, groupby.
  rewrite (getitem_Ok df "ID" _ Hids Hn).
  change (Ok ?a ≫= ?f) with (f a). cbv beta.
  destruct (group_keys_cons i ids) as (k & keys & ->).
  cbn [fmap list_fmap].
  change (mret ?a ≫= ?f) with (f a). cbv beta.
  cbn [Classification_NP.predict_groups].
  assert (Hrange : range n = seq 0 (m - 1) ++ (m - 1)%nat :: seq m (Z.to_nat n - m)).
  { unfold range. replace (Z.to_nat n) with ((m - 1) + S (Z.to_nat n - m))%nat at 1 by lia.
    rewrite seq_app. cbn [seq]. do 3 f_equal. lia. }
  rewrite Hrange, predict_steps_missing.
  - replace (m - 1 + 1)%nat with m by lia. reflexivity.
  - apply NoDup_seq.
  - rewrite elem_of_seq. lia.
  - apply NoDup_nil_2.
  - by rewrite columns_take_group.
  - intros j Hj. apply elem_of_seq in Hj.
    apply has_forecast_take_group, Hf. lia.
  - by apply has_label_take_group.
  - replace (m - 1 + 1)%nat with m by lia. by rewrite col_take_group, Hold.
  - replace (m - 1 + 1)%nat with m by lia. by rewrite col_take_group, Hnew.
Qed.

(** X11 on the frame of the round trip, which has the forecast of one
    step, when two are asked for. *)
Lemma X11_witness :
  Classification_NP.classify 2 Stub.round_trip = Raise (KeyError (fmt "yhat_raw" 2)).
Proof.
  apply (X11_missing_forecast_column 2 2 Stub.round_trip "A" ["A"; "B"; "B"]).
  - vm_compute. lia.
  - repeat constructor; vm_compute; intros Hin;
      repeat (apply elem_of_cons in Hin as [Hin | Hin]; [discriminate |]);
      by apply elem_of_nil in Hin.
  - reflexivity.
  - reflexivity.
  - split; [reflexivity |]. eexists. split; [reflexivity |].
    repeat constructor; eexists; reflexivity.
  - intros j Hj. assert (j = 1%nat) as -> by lia.
    split; [reflexivity |]. split; [reflexivity |].
    eexists. split; [reflexivity |]. repeat constructor; eexists; reflexivity.
  - reflexivity.
  - reflexivity.
Defined.

(** X12: when the forecast has the raw forecast of the first step but no
    label column [y], [predict] stops at the residual with
    [KeyError "y"]. *)
Theorem X12_missing_label_column (n : Z) (df : DataFrame)
    (i : string) (ids : list string) :
  0 < n →
  count_label df "ID" = 1%nat →
  col df "ID" = Some (Txt <$> i :: ids) →
  has_forecast df 1 →
  col df "y" = None →
  Classification_NP.classify n df = Raise (KeyError "y").
Proof.
  intros Hpos Hn Hids Hf Hy.
  unfold Classification_NP.classify, groupby.
  rewrite (getitem_Ok df "ID" _ Hids Hn).
  change (Ok ?a ≫= ?f) with (f a). cbv beta.
  destruct (group_keys_cons i ids) as (k & keys & ->).
  cbn [fmap list_fmap].
  change (mret ?a ≫= ?f) with (f a). cbv beta.
  cbn [Classification_NP.predict_groups].
  unfold range. destruct (Z.to_nat n) as [|r] eqn:Hr; [lia |].
  cbn [seq Classification_NP.predict_steps].
  rewrite predict_step_missing_label; [reflexivity | |].
  - by apply has_forecast_take_group.
  - by rewrite col_take_group, Hy.
Qed.

(** X12 on one row that has a raw forecast and no label. *)
Lemma X12_witness :
  Classification_NP.classify 1 Stub.no_label = Raise (KeyError "y").
Proof.
  apply (X12_missing_label_column 1 Stub.no_label "A" []).
  - lia.
  - reflexivity.
  - reflexivity.
  - split; [reflexivity |]. split; [reflexivity |].
    eexists. split; [reflexivity |]. repeat constructor; eexists; reflexivity.
  - reflexivity.
Defined.

(** *** The order of strings *)

Lemma compare_lt_trans (a b c : string) :
  String.compare a b = Lt → String.compare b c = Lt → String.compare a c = Lt.
Proof.
  intros Hab Hbc.
  apply OrderedTypeEx.String_as_OT.cmp_lt.
  apply OrderedTypeEx.String_as_OT.lt_trans with b;
    by apply OrderedTypeEx.String_as_OT.cmp_lt.
Qed.

Lemma compare_lt_irrefl (a : string) : String.compare a a ≠ Lt.
Proof.
  intros Hlt. pose proof (String.compare_antisym a a) as Hanti.
  rewrite Hlt in Hanti. discriminate.
Qed.

Lemma group_ids_strongly_sorted (ids : list string) :
  StronglySorted (λ a b, String.compare a b = Lt) (group_ids ids).
Proof.
  apply Sorted_StronglySorted; [| apply group_ids_sorted].
  intros a b c. apply compare_lt_trans.
Qed.

Lemma group_ids_NoDup (ids : list string) : NoDup (group_ids ids).
Proof.
  induction (group_ids_strongly_sorted ids) as [|k keys _ IH Hall];
    constructor; [| exact IH].
  intros Hin. rewrite Forall_forall in Hall.
  by apply Hall, compare_lt_irrefl in Hin.
Qed.

(** *** The rows of the groups *)

Lemma select_not_in (k : string) (ids : list string) (s : Series) :
  k ∉ ids → select_id k ids s = [].
Proof.
  revert s. induction ids as [|i ids IH]; intros s Hk; [reflexivity |].
  apply not_elem_of_cons in Hk as [Hne Hk].
  destruct s as [|x s]; [reflexivity |]. cbn.
  destruct (String.eqb_spec i k) as [-> | _]; [done | by apply IH].
Qed.

Lemma bind_select_other (i : string) (ids : list string) (x : cell) (s : Series)
    (keys : list string) :
  i ∉ keys →
  keys ≫= (λ k, select_id k (i :: ids) (x :: s)) = keys ≫= (λ k, select_id k ids s).
Proof.
  induction keys as [|k keys IH]; intros Hi; [reflexivity |].
  apply not_elem_of_cons in Hi as [Hne Hi].
  cbn. destruct (String.eqb_spec i k) as [-> | _]; [done |].
  f_equal. by apply IH.
Qed.

(** Over distinct keys that cover the identifiers, the groups hold every
    row once. *)
Lemma bind_select_Permutation (keys : list string) :
  NoDup keys →
  ∀ (ids : list string) (s : Series),
    (∀ i, i ∈ ids → i ∈ keys) → length s = length ids →
    keys ≫= (λ k, select_id k ids s) ≡ₚ s.
Proof.
  intros Hnd ids. induction ids as [|i ids IH]; intros s Hcover Hlen.
  - destruct s; [| discriminate]. clear. induction keys as [|k keys IH]; cbn; done.
  - destruct s as [|x s]; [discriminate |].
    assert (Hi : i ∈ keys) by apply Hcover, list_elem_of_here.
    apply list_elem_of_split in Hi as (l1 & l2 & ->).
    apply NoDup_app in Hnd as Hparts. destruct Hparts as (_ & Hl1 & Hnd2).
    apply NoDup_cons in Hnd2 as [Hl2 _].
    assert (Hi1 : i ∉ l1) by (intros Hin; apply (Hl1 _ Hin), list_elem_of_here).
    rewrite bind_app, bind_cons, !bind_select_other by done.
    cbn [select_id]. rewrite String.eqb_refl.
    rewrite <- app_comm_cons, <- Permutation_middle. constructor.
    etrans; [| apply (IH s); [intros j Hj; by apply Hcover, list_elem_of_further
                             | by injection Hlen]].
    by rewrite bind_app, bind_cons.
Qed.

Lemma bind_replicate_Permutation {A} (f : string → list A) (n : nat)
    (keys : list string) :
  keys ≫= (λ k, mjoin (replicate n (f k))) ≡ₚ mjoin (replicate n (keys ≫= f)).
Proof.
  induction keys as [|k keys IH]; cbn.
  - induction n as [|n IHn]; cbn; done.
  - rewrite IH. clear IH. induction n as [|n IHn]; cbn; [done |].
    rewrite <- IHn, <- !app_assoc. apply Permutation_app_head.
    rewrite !app_assoc. apply Permutation_app_tail, Permutation_app_comm.
Qed.

Lemma replicate_Permutation {A} (n : nat) (l l' : list A) :
  l ≡ₚ l' → mjoin (replicate n l) ≡ₚ mjoin (replicate n l').
Proof.
  intros Hl. induction n as [|n IH]; cbn; [done |]. by apply Permutation_app.
Qed.

Lemma length_mjoin_replicate {A} (n : nat) (l : list A) :
  length (mjoin (replicate n l)) = (n * length l)%nat.
Proof.
  induction n as [|n IH]; [reflexivity |].
  change (mjoin (replicate (S n) l)) with (l ++ mjoin (replicate n l)).
  rewrite length_app, IH. reflexivity.
Qed.

Lemma col_length (df : DataFrame) (c : string) (s : Series) (r : nat) :
  Forall (λ p, length p.2 = r) df → col df c = Some s → length s = r.
Proof.
  induction 1 as [|[c0 s0] df Hlen _ IH]; cbn; [discriminate |].
  destruct (String.eqb c0 c); [by intros [= <-] | exact IH].
Qed.

Lemma rectangular_col (df : DataFrame) (c : string) (s : Series) :
  rectangular df → col df c = Some s → length s = nrows df.
Proof. apply col_length. Qed.

(** X13: on a forecast whose identifiers are strings, the output has the
    rows of the forecast [n_forecasts] times over.
    Every column that no step writes holds, in some order, [n_forecasts]
    copies of its cells in the forecast, and the frame has [n_forecasts]
    times as many identifier cells as the forecast has. *)
Theorem X13_rows_once_per_step (n : Z) (df out : DataFrame) (ids : list string)
    (c : string) (s : Series) :
  Classification_NP.classify n df = Ok out →
  col df "ID" = Some (Txt <$> ids) →
  rectangular df →
  col df c = Some s →
  (∀ i, (1 ≤ i ≤ Z.to_nat n)%nat →
        c ∉ [fmt "yhat" i; fmt "yhat_raw" i; fmt "residual" i]) →
  default [] (col out c) ≡ₚ mjoin (replicate (Z.to_nat n) s) ∧
  length (default [] (col out "ID")) = (Z.to_nat n * nrows df)%nat.
Proof.
  intros Hrun Hids Hrect Hs Hc.
  pose proof (classify_columns_ids n df out ids Hrun Hids) as Hcols.
  assert (Hlen : ∀ c' s', col df c' = Some s' → length s' = length ids).
  { intros c' s' Hs'.
    rewrite (rectangular_col _ _ _ Hrect Hs'), <- (rectangular_col _ _ _ Hrect Hids).
    apply length_fmap. }
  assert (Hperm : ∀ c' s', col df c' = Some s' →
            (∀ i, (1 ≤ i ≤ Z.to_nat n)%nat →
               c' ∉ [fmt "yhat" i; fmt "yhat_raw" i; fmt "residual" i]) →
            default [] (col out c') ≡ₚ mjoin (replicate (Z.to_nat n) s')).
  { intros c' s' Hs' Hc'. rewrite (Hcols c' s' Hs' Hc').
    rewrite bind_replicate_Permutation. apply replicate_Permutation.
    apply bind_select_Permutation; [apply group_ids_NoDup | | by apply (Hlen c')].
    intros i Hi. by apply group_ids_elem. }
  split; [by apply Hperm |].
  rewrite (Hperm "ID" _ Hids (λ i _, untouched_ID i)).
  unfold Series. by rewrite length_mjoin_replicate, (rectangular_col _ _ _ Hrect Hids).
Qed.

(** X13 on the test double's two series and two steps, for the column of
    dates. *)
Lemma X13_witness :
  ∃ out,
    Classification_NP.classify 2 Stub.two_series = Ok out ∧
    default [] (col out "ds")
      ≡ₚ mjoin (replicate (Z.to_nat 2)
                  [Num (f64_of_Z 1); Num (f64_of_Z 2); Num (f64_of_Z 1); Num (f64_of_Z 2)]) ∧
    length (default [] (col out "ID")) = (Z.to_nat 2 * nrows Stub.two_series)%nat.
Proof.
  eexists. split; [vm_compute; reflexivity |].
  apply (X13_rows_once_per_step 2 Stub.two_series _ ["B"; "B"; "A"; "A"] "ds").
  - vm_compute. reflexivity.
  - reflexivity.
  - repeat constructor.
  - reflexivity.
  - intros i _. rewrite !not_elem_of_cons. repeat split; try (simpl; discriminate).
    apply not_elem_of_nil.
Defined.

(** *** Identifiers that come in ascending order *)

Lemma compare_le_lt_trans (a b c : string) :
  String.compare a b ≠ Gt → String.compare b c = Lt → String.compare a c = Lt.
Proof.
  intros Hab Hbc. destruct (String.compare a b) eqn:Hcmp; [| | done].
  - by apply String.compare_eq_iff in Hcmp as ->.
  - by apply compare_lt_trans with b.
Qed.

Lemma compare_le_trans (a b c : string) :
  String.compare a b ≠ Gt → String.compare b c ≠ Gt → String.compare a c ≠ Gt.
Proof.
  intros Hab Hbc. destruct (String.compare b c) eqn:Hcmp; [| | done].
  - by apply String.compare_eq_iff in Hcmp as <-.
  - by rewrite (compare_le_lt_trans a b c).
Qed.

(** With the identifiers ascending, the first identifier is the first
    key. *)
Lemma group_ids_head (i : string) (ids : list string) :
  Forall (λ j, String.compare i j ≠ Gt) ids →
  ∃ t, group_ids (i :: ids) = i :: t ∧ (i ∉ t) ∧
       (group_ids ids = i :: t ∨ (group_ids ids = t ∧ i ∉ ids)).
Proof.
  intros Hle. rewrite Forall_forall in Hle.
  pose proof (group_ids_strongly_sorted ids) as Hsorted.
  pose proof (group_ids_elem ids) as Helem.
  change (group_ids (i :: ids)) with (insert_id i (group_ids ids)).
  destruct (group_ids ids) as [|h t].
  - exists []. split; [reflexivity |]. split; [apply not_elem_of_nil |].
    right. split; [reflexivity |]. intros Hin. apply Helem in Hin.
    by apply elem_of_nil in Hin.
  - apply StronglySorted_inv in Hsorted as [_ Hall]. rewrite Forall_forall in Hall.
    assert (Hh : String.compare i h ≠ Gt).
    { apply Hle, Helem, list_elem_of_here. }
    cbn [insert_id]. destruct (String.compare i h) eqn:Hcmp; [| | done].
    + apply String.compare_eq_iff in Hcmp as ->.
      exists t. split; [reflexivity |]. split; [| by left].
      intros Hin. by apply Hall, compare_lt_irrefl in Hin.
    + assert (Hnot : i ∉ h :: t).
      { intros Hin. apply elem_of_cons in Hin as [-> | Hin].
        - by apply compare_lt_irrefl in Hcmp.
        - apply Hall in Hin.
          by apply (compare_lt_irrefl i), compare_lt_trans with h. }
      exists (h :: t). split; [reflexivity |]. split; [exact Hnot |].
      right. split; [reflexivity |]. intros Hin. by apply Hnot, Helem.
Qed.

Lemma bind_select_sorted (ids : list string) :
  StronglySorted (λ a b, String.compare a b ≠ Gt) ids →
  ∀ s : Series, length s = length ids →
    group_ids ids ≫= (λ k, select_id k ids s) = s.
Proof.
  induction 1 as [|i ids _ IH Hle]; intros s Hlen.
  - by destruct s.
  - destruct s as [|x s]; [discriminate |]. injection Hlen as Hlen.
    destruct (group_ids_head i ids Hle) as (t & -> & Hi & Hkeys).
    rewrite bind_cons, bind_select_other by exact Hi.
    cbn [select_id]. rewrite String.eqb_refl. rewrite <- app_comm_cons. f_equal.
    pose proof (IH s Hlen) as Hs.
    destruct Hkeys as [Hkeys | [Hkeys Hnot]].
    + rewrite Hkeys, bind_cons in Hs. exact Hs.
    + rewrite select_not_in by exact Hnot. rewrite Hkeys in Hs. exact Hs.
Qed.

Lemma untouched_1 (c : string) :
  c ∉ ["yhat1"; "yhat_raw1"; "residual1"] →
  ∀ i, (1 ≤ i ≤ Z.to_nat 1)%nat →
       c ∉ [fmt "yhat" i; fmt "yhat_raw" i; fmt "residual" i].
Proof.
  intros Hc i Hi. assert (i = 1%nat) as -> by lia. exact Hc.
Qed.

(** X14: with one step and the identifiers of the forecast in ascending
    order, the regrouping changes nothing: every column that the step does
    not write comes out as it is in the forecast, rows in place. *)
Theorem X14_ascending_identifiers_keep_rows (df out : DataFrame)
    (ids : list string) (c : string) (s : Series) :
  Classification_NP.classify 1 df = Ok out →
  col df "ID" = Some (Txt <$> ids) →
  Sorted (λ a b, String.compare a b ≠ Gt) ids →
  col df c = Some s →
  length s = length ids →
  c ∉ ["yhat1"; "yhat_raw1"; "residual1"] →
  default [] (col out c) = s.
Proof.
  intros Hrun Hids Hsorted Hs Hlen Hc.
  rewrite (classify_columns_ids 1 df out ids Hrun Hids c s Hs (untouched_1 c Hc)).
  change (Z.to_nat 1) with 1%nat. cbn [replicate].
  etrans; [| apply (bind_select_sorted ids); [| exact Hlen]].
  - apply bind_ext_keys. intros k. cbn. apply app_nil_r.
  - apply Sorted_StronglySorted; [| exact Hsorted].
    intros a b d. apply compare_le_trans.
Qed.

(** X14 on the frame of the round trip, whose identifiers are A, A, B, B,
    for the column of labels. *)
Lemma X14_witness :
  ∃ out,
    Classification_NP.classify 1 Stub.round_trip = Ok out ∧
    default [] (col out "y")
      = [Num (f64_of_Z 0); Num (f64_of_Z 1); Num (f64_of_Z 1); Num (f64_of_Z 1)].
Proof.
  eexists. split; [vm_compute; reflexivity |].
  apply (X14_ascending_identifiers_keep_rows Stub.round_trip _ ["A"; "A"; "B"; "B"] "y").
  - vm_compute. reflexivity.
  - reflexivity.
  - repeat constructor; vm_compute; discriminate.
  - reflexivity.
  - reflexivity.
  - rewrite !not_elem_of_cons. repeat split; try discriminate. apply not_elem_of_nil.
Defined.

(** *** One step: every row classified *)

Lemma select_length_eq (k : cell) (ids : Series) (s s' : Series) :
  length s = length s' → length (select k ids s) = length (select k ids s').
Proof.
  revert s s'. induction ids as [|i ids IH]; intros [|x s] [|x' s'] Hlen;
    try done.
  injection Hlen as Hlen. cbn.
  destruct (key_eqb i k); cbn; [f_equal |]; by apply IH.
Qed.

Lemma series_sub_Num (xs : list float64) (y res : Series) :
  series_sub (Num <$> xs) y = Ok res →
  length xs = length y →
  ∃ ys, y = Num <$> ys ∧ res = Num <$> zip_with f64_sub xs ys.
Proof.
  unfold series_sub. revert y res.
  induction xs as [|x xs IH]; intros [|c y] res Hsub Hlen; try done.
  - cbn in Hsub. injection Hsub as <-. by exists [].
  - injection Hlen as Hlen. cbn in Hsub.
    apply bind_Ok in Hsub as (r & Hr & Hsub).
    apply bind_Ok in Hsub as (res' & Hres' & Hsub).
    injection Hsub as <-.
    destruct c as [yv | t]; cbn in Hr; [| discriminate]. injection Hr as <-.
    destruct (IH y res' Hres' Hlen) as (ys & -> & ->).
    by exists (yv :: ys).
Qed.


(** The frame of a step carries the raw forecasts and the labels of the
    frame it starts from, and their classes and residuals. *)
Lemma predict_step_classified (i : nat) (k : cell) (df df' : DataFrame)
    (raw y : Series) :
  Classification_NP.predict_step i k df = Ok df' →
  col df (fmt "yhat" (i + 1)) = Some raw →
  col df (fmt "yhat_raw" (i + 1)) = None →
  col df "y" = Some y →
  length raw = length y →
  ∃ xs ys,
    raw = Num <$> xs ∧ y = Num <$> ys ∧ length xs = length ys ∧
    classified (i + 1) xs ys df'.
Proof.
  intros Hstep Hraw Hnone Hy Hlen.
  unfold Classification_NP.predict_step in Hstep. cbv zeta in Hstep.
  apply bind_Ok in Hstep as (raw0 & Hraw0 & Hstep).
  apply bind_Ok in Hstep as (xs & Hxs & Hstep).
  apply bind_Ok in Hstep as (raw1 & Hraw1 & Hstep).
  apply bind_Ok in Hstep as (y' & Hy' & Hstep).
  apply bind_Ok in Hstep as (residual & Hres & Hstep).
  injection Hstep as <-.
  apply getitem_col in Hraw0, Hraw1, Hy'. apply to_float64_Num in Hxs as ->.
  pose proof (fmt_yhat_ne_raw (i + 1) (i + 1)) as Hne.
  rewrite col_setitem_ne in Hraw1 by done.
  rewrite Hraw0 in Hraw1. injection Hraw1 as <-.
  rewrite col_setitem_ne, col_rename_ne, Hy in Hy' by (cbn; discriminate).
  injection Hy' as <-.
  assert (Hsame : raw = Num <$> xs).
  { rewrite col_rename_new, Hraw in Hraw0 by exact Hnone. by injection Hraw0. }
  subst raw. rewrite length_fmap in Hlen.
  destruct (series_sub_Num xs y residual Hres Hlen) as (ys & -> & ->).
  rewrite length_fmap in Hlen.
  exists xs, ys. split; [reflexivity |]. split; [reflexivity |].
  split; [exact Hlen |]. split; [| split; [| split]].
  - rewrite col_setitem_scalar_ne, !col_setitem_ne by (done || (cbn; discriminate)).
    exact Hraw0.
  - rewrite col_setitem_scalar_ne, col_setitem_ne by (cbn; discriminate).
    apply col_setitem_eq.
  - rewrite col_setitem_scalar_ne, !col_setitem_ne, col_rename_ne
      by (cbn; discriminate).
    exact Hy.
  - rewrite col_setitem_scalar_ne by (cbn; discriminate). apply col_setitem_eq.
Qed.

Lemma concat_classified (m : nat) (a b ab : DataFrame)
    (xs ys xs' ys' : list float64) :
  concat a b = Ok ab →
  length xs = length ys →
  (a = [] ∧ xs = [] ∧ ys = []) ∨ classified m xs ys a →
  classified m xs' ys' b →
  classified m (xs ++ xs') (ys ++ ys') ab.
Proof.
  intros Hcat Hlen [(-> & -> & ->) | (Hraw & Hyhat & Hy & Hres)] Hb.
  { rewrite concat_nil_l in Hcat. by injection Hcat as <-. }
  destruct Hb as (Hraw' & Hyhat' & Hy' & Hres').
  unfold classified. rewrite zip_with_app, !fmap_app by exact Hlen.
  repeat split; by apply (col_concat a b).
Qed.

(** Through the groups, with one step for each: the concatenation carries
    the raw forecasts and the labels of the groups done, in their order. *)
Lemma predict_groups_classified (ids : Series) (df : DataFrame) (raw y : Series) :
  col df "yhat1" = Some raw →
  col df "yhat_raw1" = None →
  col df "y" = Some y →
  length raw = length y →
  ∀ (keys : list cell) (df_pred out : DataFrame) (xs ys : list float64),
    Classification_NP.predict_groups 1 ((λ k, (k, take_group k ids df)) <$> keys) df_pred
      = Ok out →
    length xs = length ys →
    (df_pred = [] ∧ xs = [] ∧ ys = []) ∨ classified 1 xs ys df_pred →
    ∃ xs' ys',
      keys ≫= (λ k, select k ids raw) = Num <$> xs' ∧
      keys ≫= (λ k, select k ids y) = Num <$> ys' ∧
      length xs' = length ys' ∧
      ((out = [] ∧ xs ++ xs' = [] ∧ ys ++ ys' = []) ∨
       classified 1 (xs ++ xs') (ys ++ ys') out).
Proof.
  intros Hraw Hnone Hy Hlen keys.
  induction keys as [|k keys IH]; intros df_pred out xs ys Hrun Hxy Hinv.
  - cbn in Hrun. injection Hrun as <-. exists [], [].
    rewrite !app_nil_r. done.
  - cbn [fmap list_fmap Classification_NP.predict_groups] in Hrun.
    apply bind_Ok in Hrun as (df_pred' & Hk & Hrun).
    change (range 1) with [0%nat] in Hk.
    cbn [Classification_NP.predict_steps] in Hk.
    apply bind_Ok in Hk as (df_i & Hstep & Hk).
    apply bind_Ok in Hk as (df_cat & Hcat & Hk). injection Hk as <-.
    destruct (predict_step_classified 0 k _ _ (select k ids raw) (select k ids y) Hstep)
      as (xk & yk & Hxk & Hyk & Hlenk & Hclass).
    { change (fmt "yhat" (0 + 1)) with "yhat1". by rewrite col_take_group, Hraw. }
    { change (fmt "yhat_raw" (0 + 1)) with "yhat_raw1".
      by rewrite col_take_group, Hnone. }
    { by rewrite col_take_group, Hy. }
    { by apply select_length_eq. }
    destruct (IH _ _ (xs ++ xk) (ys ++ yk) Hrun) as (xs' & ys' & Hxs' & Hys' & Hlen' & Hout).
    { rewrite !length_app. by rewrite Hxy, Hlenk. }
    { right. by apply (concat_classified _ df_pred df_i). }
    exists (xk ++ xs'), (yk ++ ys').
    rewrite !bind_cons, !fmap_app, Hxk, Hyk, Hxs', Hys', !length_app, Hlenk, Hlen'.
    rewrite !app_assoc. split; [reflexivity |]. split; [reflexivity |].
    split; [reflexivity | exact Hout].
Qed.

(** X15: with one horizon step the defect of the repeated concatenation
    does not show.  On a forecast whose columns are equally long, with the
    raw forecasts under [yhat1] and no column [yhat_raw1], the output
    carries in full, group after group in the order of the keys and row
    after row as in the forecast: the raw forecasts of the forecast under
    [yhat_raw1], their roundings under [yhat1], its labels under [y], and
    under [residual1] the raw forecast minus the label of the row.  The
    raw forecasts and the labels are then numbers, and no cell of these
    columns is a filler. *)
Theorem X15_one_step_classifies_every_row (df out : DataFrame) (ids raw y : Series) :
  Classification_NP.classify 1 df = Ok out →
  rectangular df →
  col df "ID" = Some ids →
  col df "yhat1" = Some raw →
  col df "yhat_raw1" = None →
  col df "y" = Some y →
  ∃ xs ys,
    group_keys ids ≫= (λ k, select k ids raw) = Num <$> xs ∧
    group_keys ids ≫= (λ k, select k ids y) = Num <$> ys ∧
    length xs = length ys ∧
    default [] (col out "yhat_raw1") = Num <$> xs ∧
    default [] (col out "yhat1") = Num ∘ rint <$> xs ∧
    default [] (col out "y") = Num <$> ys ∧
    default [] (col out "residual1") = Num <$> zip_with f64_sub xs ys.
Proof.
  intros Hrun Hrect Hids Hraw Hnone Hy.
  unfold Classification_NP.classify, groupby in Hrun.
  apply bind_Ok in Hrun as (groups & Hgroups & Hrun).
  apply bind_Ok in Hgroups as (ids' & Hids' & Hgroups).
  injection Hgroups as <-.
  apply getitem_col in Hids'. rewrite Hids in Hids'. injection Hids' as <-.
  destruct (predict_groups_classified ids df raw y Hraw Hnone Hy) with
    (keys := group_keys ids) (df_pred := @nil (string * Series)) (out := out)
    (xs := @nil float64) (ys := @nil float64)
    as (xs & ys & Hxs & Hys & Hlen & Hout); try done.
  { by rewrite (rectangular_col _ _ _ Hrect Hraw), (rectangular_col _ _ _ Hrect Hy). }
  { by left. }
  exists xs, ys. split; [exact Hxs |]. split; [exact Hys |]. split; [exact Hlen |].
  cbn [app] in Hout. destruct Hout as [(-> & -> & ->) | (H1 & H2 & H3 & H4)].
  - done.
  - change (fmt "yhat_raw" 1) with "yhat_raw1" in H1.
    change (fmt "yhat" 1) with "yhat1" in H2.
    change (fmt "residual" 1) with "residual1" in H4.
    by rewrite H1, H2, H3, H4.
Qed.

(** X15 on the frame of the round trip. *)
Lemma X15_witness :
  ∃ out,
    Classification_NP.classify 1 Stub.round_trip = Ok out ∧
    ∃ xs ys,
      group_keys [Txt "A"; Txt "A"; Txt "B"; Txt "B"]
        ≫= (λ k, select k [Txt "A"; Txt "A"; Txt "B"; Txt "B"]
                   [Num (f64_dyadic 7205759403792794 55);
                    Num (f64_dyadic 7205759403792794 53);
                    Num (f64_dyadic 8106479329266893 53);
                    Num (f64_dyadic 7205759403792794 56)]) = Num <$> xs ∧
      group_keys [Txt "A"; Txt "A"; Txt "B"; Txt "B"]
        ≫= (λ k, select k [Txt "A"; Txt "A"; Txt "B"; Txt "B"]
                   [Num (f64_of_Z 0); Num (f64_of_Z 1); Num (f64_of_Z 1);
                    Num (f64_of_Z 1)]) = Num <$> ys ∧
      length xs = length ys ∧
      default [] (col out "yhat_raw1") = Num <$> xs ∧
      default [] (col out "yhat1") = Num ∘ rint <$> xs ∧
      default [] (col out "y") = Num <$> ys ∧
      default [] (col out "residual1") = Num <$> zip_with f64_sub xs ys.
Proof.
  eexists. split; [vm_compute; reflexivity |].
  apply (X15_one_step_classifies_every_row Stub.round_trip).
  - vm_compute. reflexivity.
  - repeat constructor.
  - reflexivity.
  - reflexivity.
  - reflexivity.
  - reflexivity.
Defined.

(** *** Rounding a forecast between 0 and 1 *)

Lemma digits2_pos_size (m : positive) : digits2_pos m = Pos.size m.
Proof. induction m as [m IH | m IH |]; cbn; by rewrite ?IH. Qed.

Lemma shr_1_m (mrs : shr_record) :
  0 ≤ shr_m mrs → shr_m (shr_1 mrs) = Z.div2 (shr_m mrs).
Proof. destruct mrs as [[|[p | p |] | p] r s]; cbn; intros Hm; (reflexivity || lia). Qed.

Lemma shr_1_bound (k : Z) (mrs : shr_record) :
  0 ≤ k → 0 ≤ shr_m mrs < 2 ^ (1 + k) →
  0 ≤ shr_m (shr_1 mrs) < 2 ^ k.
Proof.
  intros Hk Hm. rewrite shr_1_m by lia. rewrite Z.div2_div.
  rewrite Z.pow_add_r, Z.pow_1_r in Hm by lia.
  split; [apply Z.div_pos; lia | apply Z.div_lt_upper_bound; lia].
Qed.

(** Shifting [p] bits out of a mantissa of [p + k] bits leaves [k]. *)
Lemma shr_bound (p : positive) :
  ∀ (k : Z) (mrs : shr_record),
    0 ≤ k → 0 ≤ shr_m mrs < 2 ^ (Z.pos p + k) →
    0 ≤ shr_m (SpecFloat.iter_pos shr_1 p mrs) < 2 ^ k.
Proof.
  induction p as [p IH | p IH |]; intros k mrs Hk Hm; cbn [SpecFloat.iter_pos].
  - apply IH; [exact Hk |]. apply IH; [lia |]. apply shr_1_bound; [lia |].
    replace (1 + (Z.pos p + (Z.pos p + k))) with (Z.pos p~1 + k) by lia. exact Hm.
  - apply IH; [exact Hk |]. apply IH; [lia |].
    replace (Z.pos p + (Z.pos p + k)) with (Z.pos p~0 + k) by lia. exact Hm.
  - by apply shr_1_bound.
Qed.

Lemma mantissa_bound (m : positive) : Z.pos m < 2 ^ Z.pos (digits2_pos m).
Proof.
  rewrite digits2_pos_size. pose proof (Pos.size_gt m) as Hgt.
  apply Pos2Z.pos_lt_pos in Hgt. by rewrite Pos2Z.inj_pow in Hgt.
Qed.

Lemma mantissa_lower (m : positive) : 2 ^ Z.pos (digits2_pos m) ≤ 2 * Z.pos m.
Proof.
  rewrite digits2_pos_size. pose proof (Pos.size_le m) as Hle.
  apply Pos2Z.pos_le_pos in Hle. by rewrite Pos2Z.inj_pow in Hle.
Qed.

Lemma compare_cont_le (m q : positive) :
  Pos.compare_cont Eq m q ≠ Gt → (m ≤ q)%positive.
Proof. intros Hcmp. unfold Pos.le, Pos.compare. exact Hcmp. Qed.

Lemma rint_unit_interval (x : float64) :
  unit_interval x →
  rint x = S754_zero false ∨ rint x = S754_zero true ∨ rint x = f64_of_Z 1.
Proof.
  intros (Hvalid & Hlo & Hhi).
  assert (Hone : f64_of_Z 1 = S754_finite false 4503599627370496 (-52))
    by (vm_compute; reflexivity).
  rewrite Hone in *.
  destruct x as [[] | [] | | s m e]; try (by auto); try discriminate.
  destruct s; [discriminate |].
  unfold valid_binary, bounded, canonical_mantissa, fexp, emin, prec64, emax64
    in Hvalid.
  apply andb_prop in Hvalid as [Hcanon _]. apply Z.eqb_eq in Hcanon.
  pose proof (mantissa_bound m) as Hupper.
  pose proof (mantissa_lower m) as Hlower.
  unfold SFleb, SFcompare in Hhi.
  destruct (Z.compare_spec e (-52)) as [-> | He | He]; [| | discriminate].
  - assert (Hd : Z.pos (digits2_pos m) = 53) by lia.
    assert (H53 : 2 ^ 53 = 9007199254740992) by (vm_compute; reflexivity).
    rewrite Hd, H53 in Hlower.
    assert (Hm : (m ≤ 4503599627370496)%positive).
    { apply compare_cont_le. intros Hgt. rewrite Hgt in Hhi. discriminate. }
    apply Pos2Z.pos_le_pos in Hm.
    assert (Hz : Z.pos m = 4503599627370496) by (clear -Hlower Hm; lia).
    injection Hz as ->.
    right. right. vm_compute. reflexivity.
  - assert (Hd : Z.pos (digits2_pos m) ≤ 53) by lia.
    assert (Hm : Z.pos m < 2 ^ 53).
    { eapply Z.lt_le_trans; [exact Hupper |]. apply Z.pow_le_mono_r; lia. }
    unfold rint. destruct (Z.leb_spec 0 e) as [| _]; [lia |].
    destruct e as [| p | p]; [lia | lia |].
    cbv zeta. unfold shr. change (- Z.neg p) with (Z.pos p). cbn [fst].
    assert (Hshr : shr_m (SpecFloat.iter_pos shr_1 p
                            {| shr_m := Z.pos m; shr_r := false; shr_s := false |}) = 0).
    { assert (Hb : 0 ≤ shr_m (SpecFloat.iter_pos shr_1 p
                                {| shr_m := Z.pos m; shr_r := false; shr_s := false |})
                     < 2 ^ 0); [| change (2 ^ 0) with 1 in Hb; lia].
      apply shr_bound; [lia |]. cbn [shr_m]. split; [lia |].
      eapply Z.lt_le_trans; [exact Hm |]. apply Z.pow_le_mono_r; lia. }
    rewrite Hshr.
    destruct (loc_of_shr_record _) as [| []]; cbn [round_nearest_even Z.even Z.add];
      auto.
Qed.

Lemma rename_take_group (k : cell) (ids : Series) (df : DataFrame)
    (old new : string) :
  rename (take_group k ids df) old new = take_group k ids (rename df old new).
Proof.
  unfold rename, take_group. rewrite !map_map. apply map_ext. by intros [c s].
Qed.

Lemma binary_classes (xs : list float64) :
  Forall (λ c, ∃ x, c = Num x ∧ unit_interval x) (Num <$> xs) →
  Forall (λ c, c ∈ [Num (S754_zero false); Num (S754_zero true); Num (f64_of_Z 1)])
    (Num ∘ rint <$> xs).
Proof.
  induction xs as [|x xs IH]; cbn; intros Hall; [constructor |].
  apply Forall_cons in Hall as [(x' & [= <-] & Hx) Hall].
  constructor; [| by apply IH].
  destruct (rint_unit_interval x Hx) as [-> | [-> | ->]].
  - apply list_elem_of_here.
  - apply list_elem_of_further, list_elem_of_here.
  - do 2 apply list_elem_of_further. apply list_elem_of_here.
Qed.

Lemma predict_groups_binary (ids : Series) (df : DataFrame) (raw : Series) :
  col df "yhat1" = Some raw →
  col df "yhat_raw1" = None →
  Forall (λ c, ∃ x, c = Num x ∧ unit_interval x) raw →
  ∀ (keys : list cell) (df_pred out : DataFrame),
    Classification_NP.predict_groups 1 ((λ k, (k, take_group k ids df)) <$> keys) df_pred
      = Ok out →
    df_pred = [] ∨
      (∃ cl, col df_pred "yhat1" = Some cl ∧
             Forall (λ c, c ∈ [Num (S754_zero false); Num (S754_zero true);
                               Num (f64_of_Z 1)]) cl) →
    out = [] ∨
      (∃ cl, col out "yhat1" = Some cl ∧
             Forall (λ c, c ∈ [Num (S754_zero false); Num (S754_zero true);
                               Num (f64_of_Z 1)]) cl).
Proof.
  intros Hraw Hnone Hunit keys.
  induction keys as [|k keys IH]; intros df_pred out Hrun Hinv.
  - cbn in Hrun. by injection Hrun as <-.
  - cbn [fmap list_fmap Classification_NP.predict_groups] in Hrun.
    apply bind_Ok in Hrun as (df_pred' & Hk & Hrun).
    apply (IH _ _ Hrun). right.
    change (range 1) with [0%nat] in Hk.
    cbn [Classification_NP.predict_steps] in Hk.
    apply bind_Ok in Hk as (df_i & Hstep & Hk).
    apply bind_Ok in Hk as (df_cat & Hcat & Hk). injection Hk as <-.
    destruct (predict_step_columns 0 k _ _ Hstep)
      as (xs & y & residual & Hxs & _ & _ & Hcl & _).
    change (fmt "yhat" (0 + 1)) with "yhat1" in Hxs, Hcl.
    change (fmt "yhat_raw" (0 + 1)) with "yhat_raw1" in Hxs.
    rewrite rename_take_group, col_take_group, col_rename_new, Hraw in Hxs
      by exact Hnone.
    injection Hxs as Hxs.
    assert (Hbin : Forall (λ c, c ∈ [Num (S754_zero false); Num (S754_zero true);
                                     Num (f64_of_Z 1)]) (Num ∘ rint <$> xs)).
    { apply binary_classes. rewrite <- Hxs. by apply Forall_select. }
    destruct Hinv as [-> | (cl & Hcol & Hall)].
    + rewrite concat_nil_l in Hcat. injection Hcat as <-. eauto.
    + exists (cl ++ (Num ∘ rint <$> xs)).
      split; [by apply (col_concat df_pred df_i) |].
      by apply Forall_app.
Qed.

(** X16: with one horizon step, raw forecasts between 0 and 1 give
    classes that are 0 or 1.  When every raw forecast of the first step is
    a float64 with 0 <= x <= 1, every cell of [yhat1] in the output is
    zero (of either sign: the rounding keeps the sign of -0.0) or one. *)
Theorem X16_unit_forecasts_give_binary_classes (df out : DataFrame)
    (raw classes : Series) :
  Classification_NP.classify 1 df = Ok out →
  col df "yhat1" = Some raw →
  col df "yhat_raw1" = None →
  Forall (λ c, ∃ x, c = Num x ∧ unit_interval x) raw →
  col out "yhat1" = Some classes →
  Forall (λ c, c ∈ [Num (S754_zero false); Num (S754_zero true); Num (f64_of_Z 1)])
    classes.
Proof.
  intros Hrun Hraw Hnone Hunit Hclasses.
  unfold Classification_NP.classify, groupby in Hrun.
  apply bind_Ok in Hrun as (groups & Hgroups & Hrun).
  apply bind_Ok in Hgroups as (ids & Hids & Hgroups).
  injection Hgroups as <-.
  destruct (predict_groups_binary ids df raw Hraw Hnone Hunit _ _ _ Hrun)
    as [-> | (cl & Hcl & Hall)]; [by left | discriminate |].
  rewrite Hcl in Hclasses. by injection Hclasses as <-.
Qed.

(** X16 on the frame of the round trip, whose raw forecasts are 0.2, 0.8,
    0.9 and 0.1. *)
Lemma X16_witness :
  ∃ out classes,
    Classification_NP.classify 1 Stub.round_trip = Ok out ∧
    col out "yhat1" = Some classes ∧
    Forall (λ c, c ∈ [Num (S754_zero false); Num (S754_zero true); Num (f64_of_Z 1)])
      classes.
Proof.
  eexists _, _. split; [vm_compute; reflexivity |].
  split; [vm_compute; reflexivity |].
  eapply (X16_unit_forecasts_give_binary_classes Stub.round_trip).
  - vm_compute. reflexivity.
  - reflexivity.
  - reflexivity.
  - repeat (apply Forall_cons; split;
              [eexists; split; [reflexivity | repeat split; vm_compute; reflexivity] |]).
    apply Forall_nil. done.
  - vm_compute. reflexivity.
Defined.
